(** * cron-parser: the field expander and the schedule model of [app.py]

    A shallow embedding of [expand_expression], [AbstractCronExpression.__init__],
    [CronExpression.__init__] and [RawCronExpression.expand], and the properties
    of the specification proved (or refuted) about them.

    Conventions of the embedding:
    - a Python [str] is a [string]; a character is a code point below 256, so
      the classes [\d] and whitespace are the ones Python uses on that range;
    - a Python [int] is a [Z], a [List[int]] a [list Z];
    - a raised exception is the [Raise] case of [result], with the data of its
      message; nothing catches exceptions in the modelled code, so the first
      one raised is the outcome. *)

From Stdlib Require Import ZArith Ascii String Lia.
From Equations Require Import Equations.
From stdpp Require Import base decidable option list list_numbers strings.
From stdpp Require Import pretty sorting.

Local Open Scope string_scope.
Local Open Scope Z_scope.

(** ** Exceptions and results *)

(** Every failure of the program is a [ValueError] told apart by its message;
    the constructors keep what the message is formatted from.  [IndexError]
    and [InvalidLiteral] are the exceptions that Python itself would raise on
    [new_options[0]] and [int(...)]. *)
Inductive exn : Type :=
  | MalformedExpression
      (* "Invalid cron expression format. Expected at least 6 parts." *)
  | InvalidRange (expression : string)
      (* "Invalid range in expression: {expression}" *)
  | NoValidValues (values : list Z)
      (* "Value {values} not in valid options for this component", a list *)
  | InvalidInterval (expression : string)
      (* "Invalid interval in expression: {expression}" *)
  | ValueNotInDomain (value : Z)
      (* "Value {value} not in valid options for this component", an int *)
  | UnrecognizedFormat (expression : string)
      (* "unrecognized expression format: {expression}" *)
  | IndexError
  | InvalidLiteral (literal : string).

Inductive result (A : Type) : Type :=
  | Ok (a : A)
  | Raise (e : exn).
Arguments Ok {A} a.
Arguments Raise {A} e.

Definition result_bind {A B} (f : A → result B) (m : result A) : result B :=
  match m with
  | Ok a => f a
  | Raise e => Raise e
  end.

(** [x ← m; k] runs [k] when [m] returns and passes on what [m] raises. *)
#[export] Instance result_mbind : MBind result := @result_bind.

(** ** Characters *)

(** [\d] of [re] on a [str] pattern: the decimal digits; below 256 these are
    "0" to "9". *)
Definition isdigit (c : ascii) : bool :=
  match c with
  | "0" | "1" | "2" | "3" | "4" | "5" | "6" | "7" | "8" | "9" => true
  | _ => false
  end%char.

Definition digit_value (c : ascii) : Z := Z.of_N (N_of_ascii c) - 48.

(** Whitespace of [str.split()]: below 256 these are TAB, LF, VT, FF, CR,
    FS, GS, RS, US, space, NEL and NBSP. *)
Definition isspace (c : ascii) : bool :=
  match N_of_ascii c with
  | 9 | 10 | 11 | 12 | 13 | 28 | 29 | 30 | 31 | 32 | 133 | 160 => true
  | _ => false
  end%N.

(** Whitespace that [int()] drops around a literal: the same without FS, GS,
    RS and US. *)
Definition int_space (c : ascii) : bool :=
  match N_of_ascii c with
  | 9 | 10 | 11 | 12 | 13 | 32 | 133 | 160 => true
  | _ => false
  end%N.

Definition newline : ascii := "010"%char.

(** ** The regular expressions of [expand_expression]

    Each pattern is anchored at both ends and is a sequence of pieces; a
    piece consumes a prefix of the text and hands over the rest.  After
    [\d{1,2}] every pattern goes on with "-", ",", "/" or [$], none of which
    accepts a digit, so the greedy choice is the only one that can succeed
    and no backtracking is modelled. *)

(** [\d{1,2}]: the matched digits and the rest. *)
Definition re_digits (s : string) : option (string * string) :=
  match s with
  | String c s1 =>
      if isdigit c then
        match s1 with
        | String d s2 =>
            if isdigit d then Some (String c (String d ""), s2)
            else Some (String c "", s1)
        | "" => Some (String c "", "")
        end
      else None
  | "" => None
  end.

(** A literal character. *)
Definition re_char (c : ascii) (s : string) : option string :=
  match s with
  | String c' s' => if Ascii.eqb c' c then Some s' else None
  | "" => None
  end.

(** [$] without [re.MULTILINE]: the end of the text, or the position just
    before a newline that ends the text. *)
Definition re_end (s : string) : bool :=
  match s with
  | "" => true
  | String c "" => Ascii.eqb c newline
  | _ => false
  end.

(** [re.search(r"^(\d{1,2})-(\d{1,2})$", expression)]: groups 1 and 2 of
    the match, if any. *)
Definition dash_matches (expression : string) : option (string * string) :=
  '(g1, s) ← re_digits expression;
  s ← re_char "-" s;
  '(g2, s) ← re_digits s;
  if re_end s then Some (g1, g2) else None.

(** [(?:,\d{1,2})*$] *)
Fixpoint re_comma_digits_star_end (s : string) : bool :=
  match s with
  | String c (String d1 s1) =>
      if Ascii.eqb c "," && isdigit d1 then
        match s1 with
        | String d2 s2 =>
            if isdigit d2 then re_comma_digits_star_end s2
            else re_comma_digits_star_end s1
        | "" => true
        end
      else false
  | _ => re_end s
  end.

(** [re.match(r"^\d{1,2}(?:,\d{1,2})*$", expression)]: whether it matches. *)
Definition list_matches (expression : string) : bool :=
  match re_digits expression with
  | Some (_, s) => re_comma_digits_star_end s
  | None => false
  end.

(** [\*|\d{1,2}-\d{1,2}]: the matched text and the rest. *)
Definition re_base (s : string) : option (string * string) :=
  match re_char "*" s with
  | Some s' => Some ("*", s')
  | None =>
      '(a, s) ← re_digits s;
      s ← re_char "-" s;
      '(b, s) ← re_digits s;
      Some (a +:+ "-" +:+ b, s)
  end.

(** [re.search(r"^(\*|\d{1,2}-\d{1,2})/(\d{1,2})$", expression)]: groups 1
    and 2 of the match, if any. *)
Definition interval_matches (expression : string) : option (string * string) :=
  '(g1, s) ← re_base expression;
  s ← re_char "/" s;
  '(g2, s) ← re_digits s;
  if re_end s then Some (g1, g2) else None.

(** [re.match(r"^\d{1,2}$", expression)]: whether it matches. *)
Definition single_matches (expression : string) : bool :=
  match re_digits expression with
  | Some (_, s) => re_end s
  | None => false
  end.

(** ** Built-ins: [int], [str.split], [str.join] *)

Fixpoint lstrip (s : string) : string :=
  match s with
  | String c s' => if int_space c then lstrip s' else s
  | "" => ""
  end.

Fixpoint rstrip (s : string) : string :=
  match s with
  | String c s' =>
      match rstrip s' with
      | "" => if int_space c then "" else String c ""
      | r => String c r
      end
  | "" => ""
  end.

Fixpoint all_digits (s : string) : bool :=
  match s with
  | String c s' => isdigit c && all_digits s'
  | "" => true
  end.

Fixpoint digits_value (acc : Z) (s : string) : Z :=
  match s with
  | String c s' => digits_value (10 * acc + digit_value c) s'
  | "" => acc
  end.

(** [int(s)] on the literals that the program passes to it: the whitespace
    around the literal is dropped and what is left must be a non-empty run of
    decimal digits.  (Signs and underscores, which [int] reads as well, never
    reach it behind the patterns above.) *)
Definition int (s : string) : result Z :=
  match rstrip (lstrip s) with
  | "" => Raise (InvalidLiteral s)
  | t => if all_digits t then Ok (digits_value 0 t) else Raise (InvalidLiteral s)
  end.

(** [s.split(sep)] for a one-character separator. *)
Fixpoint split_on (sep : ascii) (s : string) : list string :=
  match s with
  | String c s' =>
      if Ascii.eqb c sep then "" :: split_on sep s'
      else match split_on sep s' with
           | p :: ps => String c p :: ps
           | [] => [String c ""]
           end
  | "" => [""]
  end.

(** [s.split()]: the maximal runs of characters that are not whitespace.
    [tok] is the run read so far. *)
Fixpoint split_go (tok : string) (s : string) : list string :=
  match s with
  | String c s' =>
      if isspace c then
        match tok with
        | "" => split_go "" s'
        | _ => tok :: split_go "" s'
        end
      else split_go (tok +:+ String c "") s'
  | "" => match tok with "" => [] | _ => [tok] end
  end.

Definition split (s : string) : list string := split_go "" s.

(** [sep.join(parts)] *)
Fixpoint join (sep : string) (parts : list string) : string :=
  match parts with
  | [] => ""
  | [p] => p
  | p :: ps => p +:+ sep +:+ join sep ps
  end.

(** [[int(x) for x in xs]] *)
Fixpoint ints (xs : list string) : result (list Z) :=
  match xs with
  | [] => Ok []
  | x :: xs' => v ← int x; vs ← ints xs'; Ok (v :: vs)
  end.

(** ** [expand_expression] *)

(** [[x for x in new_options if (x - new_options[0]) % interval == 0]]:
    the condition, and with it the lookup [new_options[0]], is evaluated once
    for each element that the comprehension visits. *)
Fixpoint step_filter (new_options : list Z) (interval : Z) (xs : list Z)
  : result (list Z) :=
  match xs with
  | [] => Ok []
  | x :: xs' =>
      match new_options !! 0%nat with
      | None => Raise IndexError
      | Some first =>
          rest ← step_filter new_options interval xs';
          Ok (if decide ((x - first) `mod` interval = 0) then x :: rest else rest)
      end
  end.

(** A value together with the equation that it is the value of [a]: the
    termination proof below needs to know which match led to the recursive
    call. *)
Definition inspect {A : Type} (a : A) : {b : A | a = b} := exist _ a eq_refl.

(** The function, clause by clause as in the source: the first pattern that
    matches decides.  The recursive call of the interval clause is on group 1
    of [interval_matches], which is shorter than the expression. *)
Equations? expand_expression (expression : string) (options : list Z)
  : result (list Z) by wf (String.length expression) lt :=
expand_expression expression options with String.eqb expression "*" := {
  | true => Ok options
  | false with dash_matches expression := {
    | Some (g1, g2) =>
        start ← int g1;
        end_ ← int g2;
        if decide (start > end_) then Raise (InvalidRange expression)
        else Ok (filter (λ x, start ≤ x ≤ end_) options)
    | None with list_matches expression := {
      | true =>
          values ← ints (split_on "," expression);
          match filter (λ x, x ∈ options) values with
          | [] => Raise (NoValidValues values)
          | res_val => Ok res_val
          end
      | false with inspect (interval_matches expression) := {
        | exist _ (Some (base_expression, g2)) Hm =>
            interval ← int g2;
            if decide (interval ≤ 0) then Raise (InvalidInterval expression)
            else
              new_options ← expand_expression base_expression options;
              step_filter new_options interval new_options
        | exist _ None _ with single_matches expression := {
          | true =>
              value ← int expression;
              if decide (value ∈ options) then Ok [value]
              else Raise (ValueNotInDomain value)
          | false => Raise (UnrecognizedFormat expression) } } } } }.
Proof.
  (* In the expression group 1 is followed by "/": it is shorter. *)
  clear -Hm.
  assert (∀ a b : string,
    String.length (a +:+ b) = (String.length a + String.length b)%nat) as Happ.
  { intros a b. induction a as [|c a IH]; [done|].
    change (String c a +:+ b) with (String c (a +:+ b)). simpl. by rewrite IH. }
  assert (∀ s g r, re_digits s = Some (g, r) →
    String.length s = (String.length g + String.length r)%nat) as Hdigits.
  { intros [|c [|d s2]] g r; simpl; [done | |];
      repeat case_match; intros; simplify_eq; simpl; lia. }
  assert (∀ c s r, re_char c s = Some r →
    String.length s = S (String.length r)) as Hchar.
  { intros c [|c' s] r; simpl; [done|]. case_match; intros; by simplify_eq. }
  unfold interval_matches, re_base in Hm.
  destruct (re_char "*" expression) as [s1|] eqn:Hstar; simpl in Hm.
  - destruct (re_char "/" s1) as [s2|] eqn:Hslash; simpl in Hm; [|done].
    destruct (re_digits s2) as [[? ?]|]; simpl in Hm; [|done].
    case_match; [|done]. injection Hm as <- <-.
    apply Hchar in Hstar, Hslash. simpl. lia.
  - destruct (re_digits expression) as [[a s1]|] eqn:Ha; simpl in Hm; [|done].
    destruct (re_char "-" s1) as [s2|] eqn:Hdash; simpl in Hm; [|done].
    destruct (re_digits s2) as [[b s3]|] eqn:Hb; simpl in Hm; [|done].
    destruct (re_char "/" s3) as [s4|] eqn:Hslash; simpl in Hm; [|done].
    destruct (re_digits s4) as [[? ?]|]; simpl in Hm; [|done].
    case_match; [|done]. injection Hm as <- <-.
    rewrite !Happ. apply Hdigits in Ha, Hb. apply Hchar in Hdash, Hslash.
    simpl. lia.
Qed.

(** ** The schedule model *)

(** [list(range(lo, hi))] *)
Definition range (lo hi : Z) : list Z := seqZ lo (hi - lo).

(** [parts[i]] *)
Definition index {A : Type} (parts : list A) (i : nat) : result A :=
  match parts !! i with
  | Some x => Ok x
  | None => Raise IndexError
  end.

(** The attributes that [AbstractCronExpression.__init__] sets. *)
Record AbstractCronExpression : Type := {
  raw_minute : string;
  raw_hour : string;
  raw_day_of_month : string;
  raw_month : string;
  raw_day_of_week : string;
  command : string
}.

Definition AbstractCronExpression_init (expression : string)
  : result AbstractCronExpression :=
  let parts := split expression in
  if decide (length parts < 6)%nat then Raise MalformedExpression
  else
    p0 ← index parts 0;
    p1 ← index parts 1;
    p2 ← index parts 2;
    p3 ← index parts 3;
    p4 ← index parts 4;
    Ok {| raw_minute := p0; raw_hour := p1; raw_day_of_month := p2;
          raw_month := p3; raw_day_of_week := p4;
          command := join " " (drop 5 parts) |}.

(** [RawCronExpression] adds no attribute and no code to the constructor;
    its five properties return the raw attributes. *)
Definition RawCronExpression_init := AbstractCronExpression_init.

(** [CronExpression]: the attributes of the base class and the five expanded
    fields. *)
Record CronExpression : Type := {
  super : AbstractCronExpression;
  _minute : list Z;
  _hour : list Z;
  _day_of_month : list Z;
  _month : list Z;
  _day_of_week : list Z
}.

Definition CronExpression_init (expression : string) : result CronExpression :=
  self ← AbstractCronExpression_init expression;
  minute ← expand_expression (raw_minute self) (range 0 60);
  hour ← expand_expression (raw_hour self) (range 0 24);
  day_of_month ← expand_expression (raw_day_of_month self) (range 1 32);
  month ← expand_expression (raw_month self) (range 1 13);
  day_of_week ← expand_expression (raw_day_of_week self) (range 1 8);
  Ok {| super := self; _minute := minute; _hour := hour;
        _day_of_month := day_of_month; _month := month;
        _day_of_week := day_of_week |}.

(** [RawCronExpression.expand]: the f-string puts one space between the five
    raw fields and the command. *)
Definition RawCronExpression_expand (self : AbstractCronExpression)
  : result CronExpression :=
  CronExpression_init
    (raw_minute self +:+ " " +:+ raw_hour self +:+ " " +:+
     raw_day_of_month self +:+ " " +:+ raw_month self +:+ " " +:+
     raw_day_of_week self +:+ " " +:+ command self).

(** ** The table *)

(** A value of the table: a [str] or a [List[int]]. *)
Inductive cell : Type :=
  | Str (s : string)
  | Ints (xs : list Z).

(** The abstract properties of [AbstractCronExpression] and its [command]
    attribute: what [to_table_format] reads of [self]. *)
Class CronFields (T : Type) : Type := {
  minute : T → cell;
  hour : T → cell;
  day_of_month : T → cell;
  month : T → cell;
  day_of_week : T → cell;
  command_of : T → string
}.

(** [RawCronExpression]: the properties return the raw attributes. *)
#[export] Instance RawCronExpression_fields : CronFields AbstractCronExpression := {
  minute self := Str (raw_minute self);
  hour self := Str (raw_hour self);
  day_of_month self := Str (raw_day_of_month self);
  month self := Str (raw_month self);
  day_of_week self := Str (raw_day_of_week self);
  command_of self := command self
}.

(** [CronExpression]: the properties return the expanded fields. *)
#[export] Instance CronExpression_fields : CronFields CronExpression := {
  minute self := Ints (_minute self);
  hour self := Ints (_hour self);
  day_of_month self := Ints (_day_of_month self);
  month self := Ints (_month self);
  day_of_week self := Ints (_day_of_week self);
  command_of self := command (super self)
}.

Definition to_table_format `{CronFields T} (self : T) : list (string * cell) :=
  [ ("minute", minute self);
    ("hour", hour self);
    ("day of month", day_of_month self);
    ("month", month self);
    ("day of week", day_of_week self);
    ("command", Str (command_of self)) ].

(** [str(x)] of an [int]: its decimal digits, behind "-" when negative. *)
Definition str_int (x : Z) : string := pretty x.

(** [s * n] *)
Fixpoint string_mul (s : string) (n : nat) : string :=
  match n with
  | O => ""
  | S n' => s +:+ string_mul s n'
  end.

(** [s.rstrip()]: [s] without the whitespace that ends it. *)
Fixpoint str_rstrip (s : string) : string :=
  match s with
  | String c s' =>
      match str_rstrip s' with
      | "" => if isspace c then "" else String c ""
      | r => String c r
      end
  | "" => ""
  end.

Record TableOutput : Type := {
  table_data : list (string * cell);
  name_col_length : Z
}.

(** [TableOutput(table_data)], with the default of [name_col_length]. *)
Definition TableOutput_init (table_data : list (string * cell)) : TableOutput :=
  {| table_data := table_data; name_col_length := 14 |}.

(** A repetition count that is negative gives the empty text. *)
Definition _generate_buffered_col (name : string) (length : Z) : string :=
  name +:+ string_mul " " (Z.to_nat (length - Z.of_nat (String.length name))).

(** What the f-string of [render] puts for [value], a list being joined
    first. *)
Definition str_cell (value : cell) : string :=
  match value with
  | Str s => s
  | Ints xs => join " " (str_int <$> xs)
  end.

(** One turn of the loop of [render]: the row of [name] and [value]. *)
Definition render_row (self : TableOutput) (name : string) (value : cell)
  : string :=
  _generate_buffered_col name (name_col_length self) +:+ " " +:+
  str_cell value +:+ String newline "".

Definition render (self : TableOutput) : string :=
  str_rstrip
    (foldl (λ out row, out +:+ render_row self row.1 row.2) ""
       (table_data self)).

Definition expand_cron_exp (cron_exp : string) : result string :=
  raw ← RawCronExpression_init cron_exp;
  expanded ← RawCronExpression_expand raw;
  Ok (render (TableOutput_init (to_table_format expanded))).

(** ** The command line *)

(** [str(values)] of a [List[int]] *)
Definition str_list (values : list Z) : string :=
  "[" +:+ join ", " (str_int <$> values) +:+ "]".

(** What [main] writes to the standard output and how it ends: with
    [sys.exit(status)] or by returning. *)
Record outcome : Type := {
  stdout : string;
  exit_status : option Z
}.

(** [print(s)] *)
Definition print (s : string) : string := s +:+ String newline "".

Section main.
(** [repr] of a [str], which [int] puts in the message of its own
    [ValueError]; the program's own messages do not use it. *)
Variable repr : string → string.

(** [str(e)] of the exception [e] *)
Definition str_exn (e : exn) : string :=
  match e with
  | MalformedExpression =>
      "Invalid cron expression format. Expected at least 6 parts."
  | InvalidRange expression => "Invalid range in expression: " +:+ expression
  | NoValidValues values =>
      "Value " +:+ str_list values +:+
      " not in valid options for this component"
  | InvalidInterval expression =>
      "Invalid interval in expression: " +:+ expression
  | ValueNotInDomain value =>
      "Value " +:+ str_int value +:+
      " not in valid options for this component"
  | UnrecognizedFormat expression =>
      "unrecognized expression format: " +:+ expression
  | IndexError => "list index out of range"
  | InvalidLiteral literal =>
      "invalid literal for int() with base 10: " +:+ repr literal
  end.

(** [main()] with [sys.argv = argv] *)
Definition main (argv : list string) : outcome :=
  if decide (length argv ≠ 2%nat) then
    {| stdout := print "Usage: python3 app.py <cron_expression>";
       exit_status := Some 1 |}
  else
    match cron_expression ← index argv 1; expand_cron_exp cron_expression with
    | Ok result => {| stdout := print result; exit_status := None |}
    | Raise e =>
        {| stdout := print ("Error: " +:+ str_exn e); exit_status := Some 1 |}
    end.
End main.

(** ** Vocabulary of the specification *)

(** A 1–2 digit integer, as text. *)
Definition digits12 (s : string) : bool :=
  match s with
  | String c "" => isdigit c
  | String c (String d "") => isdigit c && isdigit d
  | _ => false
  end.

(** The integer that a run of digits denotes. *)
Definition value (s : string) : Z := digits_value 0 s.

(** The base of a stepped notation: "*" or a range of 1–2 digit integers. *)
Definition stepped_base (base : string) : Prop :=
  base = "*" ∨ ∃ a b, digits12 a ∧ digits12 b ∧ base = a +:+ "-" +:+ b.

(** A token: a non-empty text without whitespace. *)
Fixpoint no_space (s : string) : bool :=
  match s with
  | String c s' => negb (isspace c) && no_space s'
  | "" => true
  end.

Definition token (t : string) : Prop := t ≠ "" ∧ no_space t.

(** A run of whitespace. *)
Fixpoint all_space (s : string) : bool :=
  match s with
  | String c s' => isspace c && all_space s'
  | "" => true
  end.

(** A text laid out as a first token and further tokens, each behind its
    separator, between a lead and a trail. *)
Definition layout (lead first : string) (others : list (string * string))
    (trail : string) : string :=
  lead +:+ first +:+ foldr (λ st rest, st.1 +:+ st.2 +:+ rest) trail others.

(** The closed interval [lo, hi] in ascending order. *)
Definition closed_interval (lo hi : Z) : list Z := seqZ lo (hi - lo + 1).

(** Whether the character does not occur in the text. *)
Fixpoint no_char (c : ascii) (s : string) : bool :=
  match s with
  | String c' s' => negb (Ascii.eqb c' c) && no_char c s'
  | "" => true
  end.

(** The six lines of the table of an expanded schedule. *)
Definition table_lines (self : CronExpression) : list string :=
  [ "minute         " +:+ join " " (str_int <$> _minute self);
    "hour           " +:+ join " " (str_int <$> _hour self);
    "day of month   " +:+ join " " (str_int <$> _day_of_month self);
    "month          " +:+ join " " (str_int <$> _month self);
    "day of week    " +:+ join " " (str_int <$> _day_of_week self);
    "command        " +:+ command (super self) ].

(** The values lo, lo + n, lo + 2n, ... up to hi. *)
Definition progression (lo hi n : Z) : list Z :=
  (λ k, lo + n * k) <$> seqZ 0 ((hi - lo) `div` n + 1).

(** The five fields of a schedule with their domains, in the fixed order
    minute, hour, day of month, month, day of week. *)
Definition fields (self : AbstractCronExpression) : list (string * list Z) :=
  [ (raw_minute self, closed_interval 0 59);
    (raw_hour self, closed_interval 0 23);
    (raw_day_of_month self, closed_interval 1 31);
    (raw_month self, closed_interval 1 12);
    (raw_day_of_week self, closed_interval 1 7) ].

(** What follows the first entry of a comma-separated list. *)
Definition comma_tail (ds : list string) : string :=
  match ds with
  | [] => ""
  | _ => "," +:+ join "," ds
  end.

(** Whether the text starts with a digit. *)
Definition head_digit (s : string) : bool :=
  match s with
  | String c _ => isdigit c
  | "" => false
  end.

(** * Properties *)

(** ** The tests of [app_test.py], on the embedding *)

Example TestExpandExpression_test_asterisk :
  expand_expression "*" (range 1 6) = Ok (range 1 6).
Proof. reflexivity. Qed.

Example TestExpandExpression_test_single_value :
  expand_expression "3" (range 1 6) = Ok [3].
Proof. reflexivity. Qed.

Example TestExpandExpression_test_comma_separated_values :
  expand_expression "1,3,5" (range 1 6) = Ok [1; 3; 5].
Proof. reflexivity. Qed.

Example TestExpandExpression_test_range :
  expand_expression "2-4" (range 1 6) = Ok [2; 3; 4].
Proof. reflexivity. Qed.

Example TestExpandExpression_test_interval :
  expand_expression "*/2" (range 1 10) = Ok [1; 3; 5; 7; 9].
Proof. reflexivity. Qed.

Example TestExpandExpression_test_range_with_interval :
  expand_expression "2-8/2" (range 1 10) = Ok [2; 4; 6; 8].
Proof. reflexivity. Qed.

Example TestExpandExpression_test_invalid :
  expand_expression "10" (range 1 6) = Raise (NoValidValues [10]) ∧
  expand_expression "5-2" (range 1 6) = Raise (InvalidRange "5-2") ∧
  expand_expression "*/0" (range 1 6) = Raise (InvalidInterval "*/0") ∧
  expand_expression "a" (range 1 6) = Raise (UnrecognizedFormat "a").
Proof. by vm_compute. Qed.

Example TestCronExpression_test_init_with_complex_expression :
  CronExpression_init "*/5 0-12 1,15 */2 1-5 /usr/bin/complex" =
  Ok {| super := {| raw_minute := "*/5"; raw_hour := "0-12";
                    raw_day_of_month := "1,15"; raw_month := "*/2";
                    raw_day_of_week := "1-5"; command := "/usr/bin/complex" |};
        _minute := [0; 5; 10; 15; 20; 25; 30; 35; 40; 45; 50; 55];
        _hour := [0; 1; 2; 3; 4; 5; 6; 7; 8; 9; 10; 11; 12];
        _day_of_month := [1; 15];
        _month := [1; 3; 5; 7; 9; 11];
        _day_of_week := [1; 2; 3; 4; 5] |}.
Proof. by vm_compute. Qed.

Example TestCronExpression_test_invalid_expression :
  CronExpression_init "0 0 1 1" = Raise MalformedExpression.
Proof. reflexivity. Qed.

Example TestRawCronExpression_test_init :
  RawCronExpression_init "0 0 1 1 1 /usr/bin/command" =
  Ok {| raw_minute := "0"; raw_hour := "0"; raw_day_of_month := "1";
        raw_month := "1"; raw_day_of_week := "1";
        command := "/usr/bin/command" |}.
Proof. reflexivity. Qed.

Example TestRawCronExpression_test_expand :
  (raw ← RawCronExpression_init "*/5 0-12 1,15 */2 1-5 /usr/bin/complex";
   RawCronExpression_expand raw) =
  CronExpression_init "*/5 0-12 1,15 */2 1-5 /usr/bin/complex".
Proof. by vm_compute. Qed.

(** [$] also matches before a newline that ends the text, and [int] drops
    it; the wildcard is compared with [==] and takes no newline. *)
Example trailing_newline :
  expand_expression (String "7" (String newline "")) (range 1 10) = Ok [7] ∧
  expand_expression ("2-4" +:+ String newline "") (range 1 10) = Ok [2; 3; 4] ∧
  expand_expression ("1,2" +:+ String newline "") (range 1 10) = Ok [1; 2] ∧
  expand_expression ("*/4" +:+ String newline "") (range 1 10) = Ok [1; 5; 9] ∧
  expand_expression (String "*" (String newline "")) (range 1 10) =
    Raise (UnrecognizedFormat (String "*" (String newline ""))).
Proof. by vm_compute. Qed.

(** Three digits match no pattern. *)
Example three_digits :
  expand_expression "123" (range 0 200) = Raise (UnrecognizedFormat "123") ∧
  expand_expression "1-100" (range 0 200) = Raise (UnrecognizedFormat "1-100").
Proof. by vm_compute. Qed.

(** ** Characters and strings *)

Local Arguments String.append !_ _ /.

(** A digit is none of the other characters that the patterns look for. *)
Lemma isdigit_facts c :
  isdigit c = true →
  int_space c = false ∧ Ascii.eqb c "-" = false ∧ Ascii.eqb c "," = false ∧
  Ascii.eqb c "/" = false ∧ Ascii.eqb c "*" = false ∧
  0 ≤ digit_value c ≤ 9.
Proof.
  destruct c as [[] [] [] [] [] [] [] []]; simpl; try discriminate;
    intros _; vm_compute; intuition congruence.
Qed.

Lemma isdigit_int_space c : isdigit c = true → int_space c = false.
Proof. intros H. apply (isdigit_facts c H). Qed.
Lemma isdigit_dash c : isdigit c = true → Ascii.eqb c "-" = false.
Proof. intros H. apply (isdigit_facts c H). Qed.
Lemma isdigit_comma c : isdigit c = true → Ascii.eqb c "," = false.
Proof. intros H. apply (isdigit_facts c H). Qed.
Lemma isdigit_slash c : isdigit c = true → Ascii.eqb c "/" = false.
Proof. intros H. apply (isdigit_facts c H). Qed.
Lemma isdigit_star c : isdigit c = true → Ascii.eqb c "*" = false.
Proof. intros H. apply (isdigit_facts c H). Qed.

(** Evaluates the tests on characters that are known to be digits. *)
Ltac digit_simpl :=
  repeat (progress
    (simpl;
     rewrite ?isdigit_int_space, ?isdigit_dash, ?isdigit_comma, ?isdigit_slash,
       ?isdigit_star by assumption;
     repeat match goal with
       | H : isdigit _ = true |- _ => rewrite H
       end)).

(** Splits a 1–2 digit text into its characters. *)
Ltac digits12_cases d :=
  let c1 := fresh "c" in
  let c2 := fresh "c" in
  let H1 := fresh "Hc" in
  let H2 := fresh "Hc" in
  destruct d as [|c1 [|c2 [|? ?]]]; simpl;
  [ by intros []
  | intros H1%Is_true_true
  | intros [H1%Is_true_true H2%Is_true_true]%andb_True
  | by intros [] ].

Lemma app_nil_r_string (s : string) : s +:+ "" = s.
Proof. induction s; simpl; [done|]. by f_equal. Qed.

Lemma app_assoc_string (a b c : string) : (a +:+ b) +:+ c = a +:+ b +:+ c.
Proof. induction a; simpl; [done|]. by f_equal. Qed.

Lemma re_digits_app d rest :
  digits12 d → head_digit rest = false → re_digits (d +:+ rest) = Some (d, rest).
Proof.
  digits12_cases d; intros Hrest; simpl.
  - rewrite Hc. destruct rest; [done|]. simpl in Hrest. by rewrite Hrest.
  - by rewrite Hc, Hc0.
Qed.

Lemma re_digits_full d : digits12 d → re_digits d = Some (d, "").
Proof.
  intros Hd. rewrite <-(app_nil_r_string d) at 1. by apply re_digits_app.
Qed.

Lemma re_digits_inv s g r :
  re_digits s = Some (g, r) → digits12 g ∧ s = g +:+ r.
Proof.
  destruct s as [|c [|d s2]]; simpl; [done| |].
  - destruct (isdigit c) eqn:Hc; intros [= <- <-]; simpl. by rewrite Hc.
  - destruct (isdigit c) eqn:Hc; [|done].
    destruct (isdigit d) eqn:Hd; intros [= <- <-]; simpl;
      by rewrite ?Hc, ?Hd.
Qed.

Lemma digits12_value_bounds d : digits12 d → 0 ≤ value d ≤ 99.
Proof.
  digits12_cases d; unfold value; simpl.
  - apply isdigit_facts in Hc. lia.
  - apply isdigit_facts in Hc, Hc0. lia.
Qed.

Lemma int_digits12 d : digits12 d → int d = Ok (value d).
Proof.
  digits12_cases d; unfold int, value; by digit_simpl.
Qed.

(** ** What the patterns accept *)

Lemma dash_matches_range a b :
  digits12 a → digits12 b → dash_matches (a +:+ "-" +:+ b) = Some (a, b).
Proof.
  intros Ha Hb. unfold dash_matches.
  rewrite re_digits_app by done. simpl.
  by rewrite re_digits_full.
Qed.

Lemma eqb_star_digits d rest :
  digits12 d → String.eqb (d +:+ rest) "*" = false.
Proof.
  digits12_cases d; by digit_simpl.
Qed.

Lemma join_cons d ds : join "," (d :: ds) = d +:+ comma_tail ds.
Proof. destruct ds; simpl; [by rewrite app_nil_r_string | done]. Qed.

Lemma head_digit_comma_tail ds : head_digit (comma_tail ds) = false.
Proof. by destruct ds. Qed.

Lemma re_comma_tail ds :
  Forall digits12 ds → re_comma_digits_star_end (comma_tail ds) = true.
Proof.
  induction 1 as [|d ds Hd _ IH]; [done|].
  change (comma_tail (d :: ds)) with ("," +:+ join "," (d :: ds)).
  rewrite join_cons. revert Hd. digits12_cases d; simpl.
  - rewrite Hc. destruct ds as [|d' ds']; [done|]. exact IH.
  - by rewrite Hc, Hc0.
Qed.

Lemma list_matches_join d ds :
  digits12 d → Forall digits12 ds → list_matches (join "," (d :: ds)) = true.
Proof.
  intros Hd Hds. unfold list_matches. rewrite join_cons.
  rewrite re_digits_app by auto using head_digit_comma_tail.
  by apply re_comma_tail.
Qed.

Lemma dash_matches_join d ds :
  digits12 d → dash_matches (join "," (d :: ds)) = None.
Proof.
  intros Hd. unfold dash_matches. rewrite join_cons.
  rewrite re_digits_app by auto using head_digit_comma_tail.
  by destruct ds.
Qed.

Lemma split_on_digits12 d : digits12 d → split_on "," d = [d].
Proof.
  digits12_cases d; by digit_simpl.
Qed.

Lemma split_on_digits12_comma d rest :
  digits12 d → split_on "," (d +:+ "," +:+ rest) = d :: split_on "," rest.
Proof.
  digits12_cases d; by digit_simpl.
Qed.

Lemma split_on_join d ds :
  digits12 d → Forall digits12 ds → split_on "," (join "," (d :: ds)) = d :: ds.
Proof.
  intros Hd Hds. revert d Hd. induction Hds as [|d' ds Hd' _ IH]; intros d Hd.
  - by apply split_on_digits12.
  - change (join "," (d :: d' :: ds)) with (d +:+ "," +:+ join "," (d' :: ds)).
    rewrite split_on_digits12_comma by done. by rewrite IH.
Qed.

Lemma ints_digits12 ds : Forall digits12 ds → ints ds = Ok (value <$> ds).
Proof.
  induction 1 as [|d ds Hd _ IH]; [done|].
  simpl. rewrite int_digits12 by done. by rewrite IH.
Qed.

(** ** [expand_expression], one clause at a time *)

(** The defining equation of [expand_expression] as a plain cascade. *)
Lemma expand_expression_eq expression options :
  expand_expression expression options =
  if String.eqb expression "*" then Ok options
  else match dash_matches expression with
  | Some (g1, g2) =>
      start ← int g1;
      end_ ← int g2;
      if decide (start > end_) then Raise (InvalidRange expression)
      else Ok (filter (λ x, start ≤ x ≤ end_) options)
  | None =>
  if list_matches expression then
    values ← ints (split_on "," expression);
    match filter (λ x, x ∈ options) values with
    | [] => Raise (NoValidValues values)
    | res_val => Ok res_val
    end
  else match interval_matches expression with
  | Some (base_expression, g2) =>
      interval ← int g2;
      if decide (interval ≤ 0) then Raise (InvalidInterval expression)
      else
        new_options ← expand_expression base_expression options;
        step_filter new_options interval new_options
  | None =>
  if single_matches expression then
    value ← int expression;
    if decide (value ∈ options) then Ok [value]
    else Raise (ValueNotInDomain value)
  else Raise (UnrecognizedFormat expression)
  end end.
Proof.
  funelim (expand_expression expression options); clear Heqcall;
    repeat match goal with
      | H : (_ =? _)%string = _ |- _ => rewrite H
      | H : dash_matches _ = _ |- _ => rewrite H
      | H : list_matches _ = _ |- _ => rewrite H
      | H : interval_matches _ = _ |- _ => rewrite H
      | H : single_matches _ = _ |- _ => rewrite H
      end; reflexivity.
Qed.

Lemma filter_nil_none {A} (P : A → Prop) `{!∀ x, Decision (P x)} (l : list A) :
  filter P l = [] ↔ ∀ x, x ∈ l → ¬ P x.
Proof.
  split.
  - intros Hnil x Hx HP. by eapply filter_nil_not_elem_of.
  - intros Hnone. induction l as [|x l IH]; [done|].
    rewrite filter_cons_False by (apply Hnone; left).
    apply IH. intros y Hy. apply Hnone. by right.
Qed.

Lemma step_filter_cons first others interval xs :
  step_filter (first :: others) interval xs =
  Ok (filter (λ x, (x - first) `mod` interval = 0) xs).
Proof.
  induction xs as [|x xs IH]; [done|].
  simpl. rewrite IH. simpl. rewrite filter_cons. by case_decide.
Qed.

(** The comprehension of the interval clause never raises: on an empty list
    it visits nothing and the lookup of its condition is not evaluated. *)
Lemma step_filter_self new_options interval :
  step_filter new_options interval new_options =
  Ok (filter (λ x, (x - default 0 (head new_options)) `mod` interval = 0)
        new_options).
Proof. destruct new_options; [done|]. by rewrite step_filter_cons. Qed.

Lemma expand_star options : expand_expression "*" options = Ok options.
Proof. by rewrite expand_expression_eq. Qed.

Lemma expand_range a b options :
  digits12 a → digits12 b →
  expand_expression (a +:+ "-" +:+ b) options =
  if decide (value a > value b) then Raise (InvalidRange (a +:+ "-" +:+ b))
  else Ok (filter (λ x, value a ≤ x ≤ value b) options).
Proof.
  intros Ha Hb. rewrite expand_expression_eq.
  rewrite eqb_star_digits, dash_matches_range by done.
  by rewrite !int_digits12 by done.
Qed.

Lemma expand_list d ds options :
  digits12 d → Forall digits12 ds →
  expand_expression (join "," (d :: ds)) options =
  match filter (λ x, x ∈ options) (value <$> d :: ds) with
  | [] => Raise (NoValidValues (value <$> d :: ds))
  | res_val => Ok res_val
  end.
Proof.
  intros Hd Hds. rewrite expand_expression_eq.
  rewrite join_cons at 1. rewrite eqb_star_digits by done.
  rewrite dash_matches_join, list_matches_join, split_on_join by done.
  by rewrite ints_digits12 by auto.
Qed.

Lemma stepped_patterns base step :
  stepped_base base → digits12 step →
  let expression := base +:+ "/" +:+ step in
  String.eqb expression "*" = false ∧ dash_matches expression = None ∧
  list_matches expression = false ∧ interval_matches expression = Some (base, step).
Proof.
  intros [->|(a & b & Ha & Hb & ->)] Hstep; simpl.
  - unfold interval_matches; simpl. rewrite re_digits_full by done. simpl.
    by split_and!.
  - rewrite !app_assoc_string. simpl.
    rewrite eqb_star_digits by done.
    assert (re_char "*" (a +:+ String "-" (b +:+ String "/" step)) = None)
      as Hstar.
    { revert Ha. digits12_cases a; by digit_simpl. }
    unfold dash_matches, list_matches, interval_matches, re_base. rewrite Hstar.
    rewrite (re_digits_app a) by done. simpl.
    rewrite (re_digits_app b) by done. simpl.
    rewrite re_digits_full by done. simpl.
    split_and!; try done.
    + revert Hstep. by digits12_cases step.
    + revert Hb. by digits12_cases b.
Qed.

Lemma expand_stepped base step options :
  stepped_base base → digits12 step →
  expand_expression (base +:+ "/" +:+ step) options =
  if decide (value step ≤ 0)
  then Raise (InvalidInterval (base +:+ "/" +:+ step))
  else
    new_options ← expand_expression base options;
    Ok (filter (λ x, (x - default 0 (head new_options)) `mod` value step = 0)
          new_options).
Proof.
  intros Hbase Hstep.
  destruct (stepped_patterns base step Hbase Hstep) as (H1 & H2 & H3 & H4).
  rewrite expand_expression_eq, H1, H2, H3, H4.
  rewrite int_digits12 by done. simpl. case_decide; [done|].
  destruct (expand_expression base options); [|done].
  simpl. apply step_filter_self.
Qed.

(** A bare 1–2 digit integer is taken by the list clause, whose pattern
    accepts a list of one entry. *)
Lemma expand_single d options :
  digits12 d →
  expand_expression d options =
  if decide (value d ∈ options) then Ok [value d]
  else Raise (NoValidValues [value d]).
Proof.
  intros Hd. change d with (join "," [d]). rewrite expand_list by done.
  simpl. rewrite filter_cons. by case_decide.
Qed.

(** The single-value clause is never reached: whatever its pattern accepts,
    the pattern of the list clause accepts before it. *)
Lemma single_matches_list_matches expression :
  single_matches expression = true → list_matches expression = true.
Proof.
  unfold single_matches, list_matches.
  destruct (re_digits expression) as [[g s]|]; [|done].
  by destruct s as [|c [|d s]].
Qed.

(** Group 1 of the interval pattern is "*" or a range, group 2 a step. *)
Lemma interval_matches_inv expression base step :
  interval_matches expression = Some (base, step) →
  stepped_base base ∧ digits12 step.
Proof.
  unfold interval_matches.
  destruct (re_base expression) as [[g1 s1]|] eqn:Hb; simpl; [|done].
  destruct (re_char "/" s1) as [s2|]; simpl; [|done].
  destruct (re_digits s2) as [[g2 s3]|] eqn:Hstep; simpl; [|done].
  case_match; [|done]. intros [= <- <-]. split.
  - unfold re_base in Hb. destruct (re_char "*" expression).
    { left. congruence. }
    destruct (re_digits expression) as [[a t1]|] eqn:Ha; simpl in Hb; [|done].
    destruct (re_char "-" t1) as [t2|]; simpl in Hb; [|done].
    destruct (re_digits t2) as [[b t3]|] eqn:Hb'; simpl in Hb; [|done].
    injection Hb as <- <-. right. exists a, b.
    apply re_digits_inv in Ha as [Ha _]. by apply re_digits_inv in Hb' as [Hb' _].
  - by apply re_digits_inv in Hstep as [? _].
Qed.

Lemma sublist_singleton {A} (x : A) (l : list A) : x ∈ l → [x] `sublist_of` l.
Proof.
  induction 1 as [x l|x y l _ IH].
  - apply sublist_skip, sublist_nil_l.
  - by apply sublist_cons.
Qed.

(** The two shapes of a result: every clause but the list clause selects
    members of the domain where they stand; the list clause selects among the
    listed values where they stand. *)
Lemma expand_expression_shape expression options r :
  expand_expression expression options = Ok r →
  (list_matches expression = false ∧ r `sublist_of` options) ∨
  (list_matches expression = true ∧ r ≠ [] ∧
   ∃ values, ints (split_on "," expression) = Ok values ∧
             r = filter (λ x, x ∈ options) values).
Proof.
  rewrite expand_expression_eq.
  destruct (String.eqb expression "*") eqn:Hstar.
  { apply String.eqb_eq in Hstar as ->. intros [= <-]. by left. }
  destruct (dash_matches expression) as [[g1 g2]|] eqn:Hdash.
  { assert (list_matches expression = false) as Hlist.
    { unfold dash_matches in Hdash. unfold list_matches.
      destruct (re_digits expression) as [[a s]|]; [|done].
      simpl in Hdash. destruct s as [|c s]; [done|]. simpl in Hdash.
      destruct (Ascii.eqb c "-") eqn:Hc; [|done].
      apply Ascii.eqb_eq in Hc as ->. by destruct s. }
    destruct (int g1) as [start|]; [|done].
    destruct (int g2) as [end_|]; [|done]. simpl.
    case_decide; [done|]. intros [= <-]. left. split; [done|].
    apply sublist_filter. }
  destruct (list_matches expression) eqn:Hlist.
  { destruct (ints (split_on "," expression)) as [values|]; [|done]. simpl.
    destruct (filter _ values) as [|x l] eqn:Hfilter; [done|].
    intros [= <-]. right. split_and!; [done..|]. by exists values. }
  intros H. left. split; [done|].
  destruct (interval_matches expression) as [[base g2]|] eqn:Hinterval.
  { apply interval_matches_inv in Hinterval as [Hbase Hstep].
    rewrite int_digits12 in H by done. simpl in H.
    case_decide; [done|].
    destruct (expand_expression base options) as [new_options|] eqn:Hnew;
      [|done].
    simpl in H. rewrite step_filter_self in H. injection H as <-.
    trans new_options; [apply sublist_filter|].
    destruct Hbase as [->|(a & b & Ha & Hb & ->)].
    - rewrite expand_star in Hnew. by injection Hnew as <-.
    - rewrite expand_range in Hnew by done. case_decide; [done|].
      injection Hnew as <-. apply sublist_filter. }
  destruct (single_matches expression); [|done].
  destruct (int expression) as [v|]; [|done]. simpl in H.
  case_decide; [|done]. injection H as <-. by apply sublist_singleton.
Qed.

Lemma int_Raise s err : int s = Raise err → err = InvalidLiteral s.
Proof.
  unfold int. destruct (rstrip (lstrip s)); [congruence|].
  case_match; congruence.
Qed.

Lemma ints_Raise xs err : ints xs = Raise err → ∃ s, err = InvalidLiteral s.
Proof.
  induction xs as [|x xs IH]; [done|]. simpl.
  destruct (int x) as [v|err'] eqn:Hx; simpl.
  - destruct (ints xs) as [vs|err']; [done|]. simpl. intros [= <-]. by apply IH.
  - intros [= <-]. apply int_Raise in Hx. by exists x.
Qed.

(** The lookup [new_options[0]] never fails: no expansion ends in an
    [IndexError]. *)
Lemma expand_expression_no_IndexError expression options :
  expand_expression expression options ≠ Raise IndexError.
Proof.
  rewrite expand_expression_eq.
  destruct (String.eqb expression "*"); [done|].
  destruct (dash_matches expression) as [[g1 g2]|].
  { destruct (int g1) as [start|err] eqn:H1; simpl;
      [|by apply int_Raise in H1 as ->].
    destruct (int g2) as [end_|err] eqn:H2; simpl;
      [|by apply int_Raise in H2 as ->].
    by case_decide. }
  destruct (list_matches expression).
  { destruct (ints (split_on "," expression)) as [values|err] eqn:Hints; simpl.
    - by destruct (filter _ values).
    - by apply ints_Raise in Hints as [s ->]. }
  destruct (interval_matches expression) as [[base g2]|] eqn:Hinterval.
  { apply interval_matches_inv in Hinterval as [Hbase Hstep].
    rewrite int_digits12 by done. simpl. case_decide; [done|].
    destruct Hbase as [->|(a & b & Ha & Hb & ->)].
    - rewrite expand_star. simpl. by rewrite step_filter_self.
    - rewrite expand_range by done. case_decide; [done|].
      simpl. by rewrite step_filter_self. }
  destruct (single_matches expression); [|done].
  destruct (int expression) as [v|err] eqn:H1; simpl;
    [|by apply int_Raise in H1 as ->].
  by case_decide.
Qed.

(** ** The field expander *)

(** C1: a stepped notation with step >= 1 whose base expands to the empty
    sequence expands to the empty sequence; no exception is raised although
    the condition of the comprehension reads [new_options[0]]. *)
Theorem C1_stepped_empty_base (D : list Z) (base step : string) :
  stepped_base base → digits12 step → 1 ≤ value step →
  expand_expression base D = Ok [] →
  expand_expression (base +:+ "/" +:+ step) D = Ok [].
Proof.
  intros Hbase Hstep Hpos Hempty.
  rewrite expand_stepped, Hempty by done.
  case_decide; [lia | done].
Qed.

Lemma C1_stepped_empty_base_witness :
  expand_expression "50-55/2" (range 0 24) = Ok [].
Proof.
  apply (C1_stepped_empty_base (range 0 24) "50-55" "2").
  - right. by exists "50", "55".
  - exact I.
  - by vm_compute.
  - by vm_compute.
Defined.

(** C2: a bare integer that is not a member of the domain fails with the
    error of the list clause, not with the error of the single-value clause:
    [expand_expression("10", [1..5])] raises
    "Value [10] not in valid options for this component". *)
Theorem C2_single_value_error :
  expand_expression "3" (range 1 6) = Ok [3] ∧
  expand_expression "10" (range 1 6) = Raise (NoValidValues [10]) ∧
  expand_expression "10" (range 1 6) ≠ Raise (ValueNotInDomain 10).
Proof. by vm_compute. Qed.

(** C3, as the specification states it, fails on list notations. *)
Lemma C3_counterexample :
  (expand_expression "5,1,3" (range 1 10) = Ok [5; 1; 3] ∧
   ¬ [5; 1; 3] `sublist_of` range 1 10) ∧
  (expand_expression "3,3" (range 1 10) = Ok [3; 3] ∧ ¬ NoDup [3; 3]).
Proof.
  split_and!; try by vm_compute.
  - change (range 1 10) with [1; 2; 3; 4; 5; 6; 7; 8; 9]. intros Hsub.
    repeat match goal with
      | H : _ `sublist_of` _ :: _ |- _ =>
          apply sublist_cons_r in H as [H|(? & ? & H)]; simplify_eq
      | H : _ `sublist_of` [] |- _ => apply sublist_nil_r in H; simplify_eq
      end.
  - intros [Hnotin _]%NoDup_cons. apply Hnotin. left.
Qed.

(** C3, amended: a successful expansion of a notation that the list pattern
    does not accept is a subsequence of the domain, in the order of the
    domain, and has no duplicates when the domain has none; a successful
    expansion of a notation that the list pattern accepts consists of the
    listed values that are members of the domain, in the order of the list,
    repeated as often as they are listed, and when one value is listed it is
    a duplicate-free subsequence of the domain as well. *)
Theorem C3_expansion_order (D : list Z) (notation : string) (r : list Z) :
  expand_expression notation D = Ok r →
  (list_matches notation = false → r `sublist_of` D ∧ (NoDup D → NoDup r)) ∧
  (list_matches notation = true →
     ∃ values, ints (split_on "," notation) = Ok values ∧
       r = filter (λ x, x ∈ D) values ∧
       (length values = 1%nat → r `sublist_of` D ∧ NoDup r)).
Proof.
  intros [[Hlist Hsub]|(Hlist & Hne & values & Hvalues & ->)]%expand_expression_shape.
  - split; [|congruence]. intros _. split; [done|].
    intros HD. by eapply sublist_NoDup.
  - split; [congruence|]. intros _. exists values. split_and!; [done..|].
    destruct values as [|v [|? ?]]; [done| |done]. intros _.
    rewrite filter_cons in Hne |- *. case_decide; [|done].
    split; [by apply sublist_singleton|]. apply NoDup_singleton.
Qed.

Lemma C3_expansion_order_witness :
  [2; 4; 6; 8] `sublist_of` range 1 10 ∧ NoDup [2; 4; 6; 8].
Proof.
  destruct (C3_expansion_order (range 1 10) "2-8/2" [2; 4; 6; 8]) as [H _];
    [by vm_compute|].
  destruct H as [Hsub Hnodup]; [by vm_compute|].
  split; [exact Hsub|]. apply Hnodup, NoDup_seqZ.
Defined.

(** C4: a stepped notation whose base is "*" or a range of 1–2 digit
    integers fails with InvalidInterval when its step is <= 0, whatever the
    domain and the base; otherwise, when the base expands to a non-empty
    sequence C, it expands to the elements x of C with
    (x - C[0]) mod step = 0, in the order of C. *)
Theorem C4_stepped_expansion (D : list Z) (base step : string) :
  stepped_base base → digits12 step →
  (value step ≤ 0 →
     expand_expression (base +:+ "/" +:+ step) D =
       Raise (InvalidInterval (base +:+ "/" +:+ step))) ∧
  (0 < value step → ∀ c C, expand_expression base D = Ok (c :: C) →
     expand_expression (base +:+ "/" +:+ step) D =
       Ok (filter (λ x, (x - c) `mod` value step = 0) (c :: C))).
Proof.
  intros Hbase Hstep. rewrite expand_stepped by done. split.
  - intros Hle. by case_decide.
  - intros Hpos c C ->. case_decide; [lia | done].
Qed.

Lemma C4_stepped_expansion_witness :
  expand_expression "2-8/2" (range 1 10) = Ok [2; 4; 6; 8] ∧
  expand_expression "*/2" (range 1 10) = Ok [1; 3; 5; 7; 9] ∧
  expand_expression "*/0" (range 1 10) = Raise (InvalidInterval "*/0") ∧
  expand_expression "8-2/00" (range 1 10) = Raise (InvalidInterval "8-2/00").
Proof.
  set (D := range 1 10). split_and!.
  - refine (proj2 (C4_stepped_expansion D "2-8" "2" _ I) _ 2 [3; 4; 5; 6; 7; 8] _);
      [right; by exists "2", "8" | by vm_compute | by vm_compute].
  - refine (proj2 (C4_stepped_expansion D "*" "2" _ I) _ 1 [2; 3; 4; 5; 6; 7; 8; 9] _);
      [by left | by vm_compute | by vm_compute].
  - refine (proj1 (C4_stepped_expansion D "*" "0" _ I) _);
      [by left | by vm_compute].
  - refine (proj1 (C4_stepped_expansion D "8-2" "00" _ I) _);
      [right; by exists "8", "2" | by vm_compute].
Defined.

(** C5: a range "a-b" of 1–2 digit integers with a <= b expands to the
    members x of the domain with a <= x <= b, in the order of the domain;
    this is the empty sequence, and not an error, when no member of the
    domain lies in the range; with a > b the expansion fails with
    InvalidRange. *)
Theorem C5_range_expansion (D : list Z) (a b : string) :
  digits12 a → digits12 b →
  (value a ≤ value b →
     expand_expression (a +:+ "-" +:+ b) D =
       Ok (filter (λ x, value a ≤ x ≤ value b) D)) ∧
  (value a ≤ value b → (∀ x, x ∈ D → ¬ (value a ≤ x ≤ value b)) →
     expand_expression (a +:+ "-" +:+ b) D = Ok []) ∧
  (value a > value b →
     expand_expression (a +:+ "-" +:+ b) D =
       Raise (InvalidRange (a +:+ "-" +:+ b))).
Proof.
  intros Ha Hb. rewrite expand_range by done. split_and!.
  - intros Hle. case_decide; [lia | done].
  - intros Hle Hnone. case_decide; [lia|]. f_equal.
    by apply filter_nil_none.
  - intros Hgt. by case_decide.
Qed.

Lemma C5_range_expansion_witness :
  expand_expression "2-4" (range 1 6) = Ok [2; 3; 4] ∧
  expand_expression "7-9" (range 1 6) = Ok [] ∧
  expand_expression "5-2" (range 1 6) = Raise (InvalidRange "5-2").
Proof.
  split_and!.
  - apply (C5_range_expansion (range 1 6) "2" "4" I I). by vm_compute.
  - apply (C5_range_expansion (range 1 6) "7" "9" I I); [by vm_compute|].
    intros x Hx%elem_of_seqZ.
    change (value "7") with 7. change (value "9") with 9. lia.
  - apply (C5_range_expansion (range 1 6) "5" "2" I I). by vm_compute.
Defined.

(** C6: a list "d1,...,dn" of two or more 1–2 digit integers expands to the
    listed values that are members of the domain, in the order of the list;
    it fails with NoValidValues exactly when no listed value is a member. *)
Theorem C6_list_expansion (D : list Z) (ds : list string) :
  Forall digits12 ds → (2 ≤ length ds)%nat →
  let values := value <$> ds in
  let listed := filter (λ x, x ∈ D) values in
  (listed ≠ [] → expand_expression (join "," ds) D = Ok listed) ∧
  (expand_expression (join "," ds) D = Raise (NoValidValues values) ↔
     ∀ v, v ∈ values → v ∉ D) ∧
  ((∃ err, expand_expression (join "," ds) D = Raise err) ↔
     ∀ v, v ∈ values → v ∉ D).
Proof.
  intros Hds Hlen values listed.
  destruct ds as [|d ds]; [simpl in Hlen; lia|].
  apply Forall_cons in Hds as [Hd Hds].
  rewrite expand_list by done. fold values. fold listed.
  assert (listed = [] ↔ ∀ v, v ∈ values → v ∉ D) as Hnone.
  { apply filter_nil_none. }
  rewrite <-Hnone. destruct listed as [|x l]; split_and!; try done.
  - split; [done|]. by exists (NoValidValues values).
  - split; [|done]. by intros [err ?].
Qed.

Lemma C6_list_expansion_witness :
  expand_expression "5,1,3" (range 1 10) = Ok [5; 1; 3] ∧
  expand_expression "10,11" (range 1 10) = Raise (NoValidValues [10; 11]).
Proof.
  split.
  - apply (C6_list_expansion (range 1 10) ["5"; "1"; "3"]);
      [by repeat constructor | simpl; lia |].
    by vm_compute.
  - apply (C6_list_expansion (range 1 10) ["10"; "11"]);
      [by repeat constructor | simpl; lia |].
    intros v Hv Hin%elem_of_seqZ.
    change (value <$> ["10"; "11"]) with [10; 11] in Hv.
    apply elem_of_cons in Hv as [->|Hv]; [lia|].
    apply list_elem_of_singleton in Hv as ->. lia.
Defined.

(** C9: every integer of a successful expansion is a member of the domain,
    whichever clause produced it. *)
Theorem C9_domain_membership (D : list Z) (notation : string) (r : list Z) :
  expand_expression notation D = Ok r → ∀ x, x ∈ r → x ∈ D.
Proof.
  intros [[_ Hsub]|(_ & _ & values & _ & ->)]%expand_expression_shape x Hx.
  - by eapply sublist_subseteq.
  - by apply list_elem_of_filter in Hx as [? _].
Qed.

Lemma C9_domain_membership_witness : 5 ∈ range 1 10.
Proof.
  apply (C9_domain_membership (range 1 10) "5,1,3" [5; 1; 3]).
  - by vm_compute.
  - left.
Defined.

(** ** [str.split] and [str.join] *)

Lemma no_space_app a b : no_space a → no_space b → no_space (a +:+ b).
Proof.
  induction a as [|c a IH]; simpl; [done|].
  intros [Hc Ha]%andb_True Hb. apply andb_True. auto.
Qed.

Lemma split_go_tokens tok s : no_space tok → Forall token (split_go tok s).
Proof.
  revert tok. induction s as [|c s IH]; intros tok Htok; simpl.
  - destruct tok; by repeat constructor.
  - destruct (isspace c) eqn:Hc.
    + destruct tok; [by apply IH|].
      constructor; [done | by apply IH].
    + apply IH, no_space_app; [done|]. simpl. by rewrite Hc.
Qed.

(** The parts that [split] returns are tokens. *)
Lemma split_tokens s : Forall token (split s).
Proof. by apply split_go_tokens. Qed.

Lemma split_go_app tok t s :
  no_space t → split_go tok (t +:+ s) = split_go (tok +:+ t) s.
Proof.
  revert tok. induction t as [|c t IH]; intros tok; simpl.
  - by rewrite app_nil_r_string.
  - intros [Hc Ht]%andb_True. apply negb_True, Is_true_false in Hc.
    rewrite Hc, IH, app_assoc_string by done. done.
Qed.

(** Joining tokens with single spaces and splitting again gives the tokens. *)
Lemma split_join ts : Forall token ts → split (join " " ts) = ts.
Proof.
  unfold split. induction 1 as [|t ts [Hne Ht] Hts IH]; [done|].
  destruct ts as [|t' ts].
  - simpl. rewrite <-(app_nil_r_string t) at 1.
    rewrite split_go_app by done. simpl. by destruct t.
  - change (join " " (t :: t' :: ts)) with (t +:+ " " +:+ join " " (t' :: ts)).
    remember (join " " (t' :: ts)) as rest eqn:Hrest.
    rewrite split_go_app by done. simpl. rewrite IH. by destruct t.
Qed.

Lemma split_go_space tok w s :
  all_space w → w ≠ "" → tok ≠ "" →
  split_go tok (w +:+ s) = tok :: split_go "" s.
Proof.
  intros Hw Hne Htok. destruct w as [|c w]; [done|]. clear Hne.
  simpl in Hw |- *. apply andb_True in Hw as [Hc Hw].
  apply Is_true_true in Hc. rewrite Hc. destruct tok; [done|]. f_equal.
  clear Hc. induction w as [|c' w IH]; [done|].
  simpl in Hw |- *. apply andb_True in Hw as [Hc Hw].
  apply Is_true_true in Hc. rewrite Hc. by apply IH.
Qed.

Lemma split_go_lead w s : all_space w → split_go "" (w +:+ s) = split_go "" s.
Proof.
  induction w as [|c w IH]; [done|]. simpl.
  intros [Hc Hw]%andb_True. apply Is_true_true in Hc. rewrite Hc. by apply IH.
Qed.

(** [split] on a laid-out text: whatever the whitespace around and between
    them, the tokens are returned, in order. *)
Lemma split_layout lead first others trail :
  all_space lead → all_space trail → token first →
  Forall (λ st, all_space st.1 ∧ st.1 ≠ "" ∧ token st.2) others →
  split (layout lead first others trail) = first :: others.*2.
Proof.
  intros Hlead Htrail Hfirst Hothers. unfold split, layout.
  rewrite split_go_lead by done. clear lead Hlead.
  revert first Hfirst. induction Hothers as [|[w t] others (Hw & Hne & Ht) _ IH];
    intros first [Hfirst Hns].
  - simpl. rewrite split_go_app by done. simpl.
    destruct (decide (trail = "")) as [->|Hne].
    + simpl. by destruct first.
    + rewrite <-(app_nil_r_string trail), split_go_space by done. done.
  - simpl. rewrite split_go_app by done. simpl.
    rewrite split_go_space by done. f_equal. by apply IH.
Qed.

Lemma join_snoc_command (a b c d e : string) (rest : list string) :
  rest ≠ [] →
  a +:+ " " +:+ b +:+ " " +:+ c +:+ " " +:+ d +:+ " " +:+ e +:+ " " +:+
    join " " rest = join " " (a :: b :: c :: d :: e :: rest).
Proof. by destruct rest. Qed.

(** ** The schedule model *)

Lemma elem_of_closed_interval lo hi x :
  x ∈ closed_interval lo hi ↔ lo ≤ x ≤ hi.
Proof. unfold closed_interval. rewrite elem_of_seqZ. lia. Qed.

(** The constructor of the base class, by the parts of the expression. *)
Lemma AbstractCronExpression_init_parts expression :
  AbstractCronExpression_init expression =
  match split expression with
  | p0 :: p1 :: p2 :: p3 :: p4 :: p5 :: rest =>
      Ok {| raw_minute := p0; raw_hour := p1; raw_day_of_month := p2;
            raw_month := p3; raw_day_of_week := p4;
            command := join " " (p5 :: rest) |}
  | _ => Raise MalformedExpression
  end.
Proof.
  unfold AbstractCronExpression_init.
  by destruct (split expression) as [|p0 [|p1 [|p2 [|p3 [|p4 [|p5 rest]]]]]].
Qed.

(** C7: the expression is split into its tokens, whatever the whitespace
    around and between them; an expression of fewer than 6 tokens is
    rejected with MalformedExpression, by the constructor of the raw
    schedule and, before any field is looked at, by the constructor of the
    expanded schedule; one of 6 or more is accepted, its first five tokens
    are stored verbatim as the raw fields and the others, joined with single
    spaces, as the command, which is the 6th token when there are 6. *)
Theorem C7_schedule_construction (expression : string) :
  Forall token (split expression) ∧
  (∀ lead first others trail,
     all_space lead → all_space trail → token first →
     Forall (λ st, all_space st.1 ∧ st.1 ≠ "" ∧ token st.2) others →
     expression = layout lead first others trail →
     split expression = first :: others.*2) ∧
  ((length (split expression) < 6)%nat →
     AbstractCronExpression_init expression = Raise MalformedExpression ∧
     CronExpression_init expression = Raise MalformedExpression) ∧
  (∀ p0 p1 p2 p3 p4 p5 rest,
     split expression = p0 :: p1 :: p2 :: p3 :: p4 :: p5 :: rest →
     AbstractCronExpression_init expression =
       Ok {| raw_minute := p0; raw_hour := p1; raw_day_of_month := p2;
             raw_month := p3; raw_day_of_week := p4;
             command := join " " (p5 :: rest) |}) ∧
  (∀ self, (length (split expression) = 6)%nat →
     AbstractCronExpression_init expression = Ok self →
     split expression !! 5%nat = Some (command self)).
Proof.
  split; [apply split_tokens|].
  split; [intros lead first others trail ???? ->; by apply split_layout|].
  unfold CronExpression_init.
  rewrite AbstractCronExpression_init_parts. split_and!.
  - intros Hlen.
    destruct (split expression) as [|p0 [|p1 [|p2 [|p3 [|p4 [|p5 rest]]]]]];
      try done.
    simpl in Hlen. lia.
  - by intros p0 p1 p2 p3 p4 p5 rest ->.
  - intros self Hlen.
    destruct (split expression) as [|p0 [|p1 [|p2 [|p3 [|p4 [|p5 [|? ?]]]]]]];
      try done.
    by intros [= <-].
Qed.

Lemma C7_schedule_construction_witness :
  (AbstractCronExpression_init "0 0 1 1" = Raise MalformedExpression ∧
   CronExpression_init "0 0 1 1" = Raise MalformedExpression) ∧
  AbstractCronExpression_init "0 0 1 1 1   /usr/bin/command -a  -b --c=d" =
    Ok {| raw_minute := "0"; raw_hour := "0"; raw_day_of_month := "1";
          raw_month := "1"; raw_day_of_week := "1";
          command := "/usr/bin/command -a -b --c=d" |}.
Proof.
  split.
  - apply (C7_schedule_construction "0 0 1 1"). vm_compute. lia.
  - destruct (C7_schedule_construction
                "0 0 1 1 1   /usr/bin/command -a  -b --c=d")
      as (_ & _ & _ & H & _).
    by apply (H "0" "0" "1" "1" "1" "/usr/bin/command" ["-a"; "-b"; "--c=d"]).
Defined.

(** C8: the five fields are expanded in the order minute, hour, day of
    month, month, day of week, against [0,59], [0,23], [1,31], [1,12] and
    [1,7]; the construction of the expanded schedule fails with the error of
    the leftmost field whose expansion fails, and yields the five sequences
    when none fails. *)
Theorem C8_leftmost_error (expression : string) (self : AbstractCronExpression) :
  AbstractCronExpression_init expression = Ok self →
  let results := (λ f, expand_expression f.1 f.2) <$> fields self in
  (∀ (i : nat) err,
     results !! i = Some (Raise err) →
     (∀ j : nat, (j < i)%nat → ∃ r, results !! j = Some (Ok r)) →
     CronExpression_init expression = Raise err) ∧
  (∀ minute hour day_of_month month day_of_week,
     results = [Ok minute; Ok hour; Ok day_of_month; Ok month; Ok day_of_week] →
     CronExpression_init expression =
       Ok {| super := self; _minute := minute; _hour := hour;
             _day_of_month := day_of_month; _month := month;
             _day_of_week := day_of_week |}).
Proof.
  intros Hself results. unfold CronExpression_init. rewrite Hself.
  subst results. unfold fields. simpl.
  change (range 0 60) with (closed_interval 0 59).
  change (range 0 24) with (closed_interval 0 23).
  change (range 1 32) with (closed_interval 1 31).
  change (range 1 13) with (closed_interval 1 12).
  change (range 1 8) with (closed_interval 1 7).
  split.
  - intros i err Hi Hbefore.
    assert (∀ j r, (j < i)%nat →
      ((λ f, expand_expression f.1 f.2) <$> fields self) !! j = Some r →
      ∃ v, r = Ok v) as Hok.
    { intros j r Hj Hr. destruct (Hbefore j Hj) as [v Hv]. exists v.
      unfold fields in Hr. simpl in Hr. congruence. }
    unfold fields in Hok. simpl in Hok.
    destruct i as [|[|[|[|[|i]]]]]; simpl in Hi; [..|done];
      injection Hi as Hi; rewrite Hi; simpl; try done.
    + destruct (Hok 0%nat _ ltac:(lia) eq_refl) as [? ->]. done.
    + destruct (Hok 0%nat _ ltac:(lia) eq_refl) as [? ->].
      destruct (Hok 1%nat _ ltac:(lia) eq_refl) as [? ->]. done.
    + destruct (Hok 0%nat _ ltac:(lia) eq_refl) as [? ->].
      destruct (Hok 1%nat _ ltac:(lia) eq_refl) as [? ->].
      destruct (Hok 2%nat _ ltac:(lia) eq_refl) as [? ->]. done.
    + destruct (Hok 0%nat _ ltac:(lia) eq_refl) as [? ->].
      destruct (Hok 1%nat _ ltac:(lia) eq_refl) as [? ->].
      destruct (Hok 2%nat _ ltac:(lia) eq_refl) as [? ->].
      destruct (Hok 3%nat _ ltac:(lia) eq_refl) as [? ->]. done.
  - intros minute hour day_of_month month day_of_week [= -> -> -> -> ->].
    done.
Qed.

Lemma C8_leftmost_error_witness :
  CronExpression_init "0 60 x 1 1 a" = Raise (NoValidValues [60]) ∧
  CronExpression_init "0 0 x 1-0 1 a" = Raise (UnrecognizedFormat "x").
Proof.
  split.
  - refine (proj1 (C8_leftmost_error "0 60 x 1 1 a"
      {| raw_minute := "0"; raw_hour := "60"; raw_day_of_month := "x";
         raw_month := "1"; raw_day_of_week := "1"; command := "a" |} _)
      1%nat _ _ _); [by vm_compute | by vm_compute |].
    intros j Hj. assert (j = 0%nat) as -> by lia. exists [0]. by vm_compute.
  - refine (proj1 (C8_leftmost_error "0 0 x 1-0 1 a"
      {| raw_minute := "0"; raw_hour := "0"; raw_day_of_month := "x";
         raw_month := "1-0"; raw_day_of_week := "1"; command := "a" |} _)
      2%nat _ _ _); [by vm_compute | by vm_compute |].
    intros j Hj. exists [0].
    destruct j as [|[|j]]; [by vm_compute | by vm_compute | lia].
Defined.

(** The constructors read the expression through its parts only. *)
Lemma CronExpression_init_split e1 e2 :
  split e1 = split e2 → CronExpression_init e1 = CronExpression_init e2.
Proof.
  intros Hsplit. unfold CronExpression_init.
  by rewrite !AbstractCronExpression_init_parts, Hsplit.
Qed.

(** C10: for an expression of at least 6 tokens, the raw schedule exists and
    its [expand()] builds the very expanded schedule (the same five
    sequences, the same command, or the same error) that the expression
    itself builds. *)
Theorem C10_expand_roundtrip (expression : string) :
  (6 ≤ length (split expression))%nat →
  ∃ raw, RawCronExpression_init expression = Ok raw ∧
         RawCronExpression_expand raw = CronExpression_init expression.
Proof.
  intros Hlen. unfold RawCronExpression_init.
  rewrite AbstractCronExpression_init_parts.
  pose proof (split_tokens expression) as Htokens.
  destruct (split expression) as [|p0 [|p1 [|p2 [|p3 [|p4 [|p5 rest]]]]]] eqn:Hparts;
    try (simpl in Hlen; lia).
  eexists. split; [done|].
  unfold RawCronExpression_expand. cbn [raw_minute raw_hour raw_day_of_month
    raw_month raw_day_of_week command].
  rewrite join_snoc_command by done.
  apply CronExpression_init_split.
  by rewrite split_join, Hparts by done.
Qed.

Lemma C10_expand_roundtrip_witness :
  ∃ raw,
    RawCronExpression_init "*/5 0-12  1,15 */2 1-5   /usr/bin/complex  -a" =
      Ok raw ∧
    RawCronExpression_expand raw =
      CronExpression_init "*/5 0-12  1,15 */2 1-5   /usr/bin/complex  -a".
Proof.
  apply (C10_expand_roundtrip "*/5 0-12  1,15 */2 1-5   /usr/bin/complex  -a").
  vm_compute. lia.
Defined.

(** * Further properties of the code *)

(** ** More on the patterns *)

Lemma dash_matches_inv expression g1 g2 :
  dash_matches expression = Some (g1, g2) → digits12 g1 ∧ digits12 g2.
Proof.
  unfold dash_matches.
  destruct (re_digits expression) as [[a s1]|] eqn:Ha; simpl; [|done].
  destruct (re_char "-" s1) as [s2|]; simpl; [|done].
  destruct (re_digits s2) as [[b s3]|] eqn:Hb; simpl; [|done].
  case_match; [|done]. intros [= <- <-].
  apply re_digits_inv in Ha as [? _]. by apply re_digits_inv in Hb as [? _].
Qed.

Lemma comma_tail_cons d ds :
  comma_tail (d :: ds) = "," +:+ d +:+ comma_tail ds.
Proof.
  change (comma_tail (d :: ds)) with ("," +:+ join "," (d :: ds)).
  by rewrite join_cons.
Qed.

(** What [(?:,\d{1,2})*$] accepts: entries behind commas, and a newline or
    nothing behind them. *)
Lemma re_comma_tail_inv s :
  re_comma_digits_star_end s = true →
  ∃ ds, Forall digits12 ds ∧
    (s = comma_tail ds ∨ s = comma_tail ds +:+ String newline "").
Proof.
  remember (String.length s) as n eqn:Hn. revert s Hn.
  induction n as [n IH] using lt_wf_ind. intros s Hn.
  destruct s as [|c [|d1 s1]].
  - intros _. exists []. split; [done | by left].
  - simpl. intros ->%Ascii.eqb_eq. exists []. split; [done | by right].
  - simpl. destruct (Ascii.eqb c ",") eqn:Hc; [|done].
    apply Ascii.eqb_eq in Hc as ->.
    destruct (isdigit d1) eqn:Hd1; [|done]. simpl.
    destruct s1 as [|d2 s2].
    { intros _. exists [String d1 ""]. split; [|by left].
      repeat constructor. simpl. by rewrite Hd1. }
    destruct (isdigit d2) eqn:Hd2.
    + intros (ds & Hds & Hs)%(IH (String.length s2)); [|simpl in Hn; lia|done].
      exists (String d1 (String d2 "") :: ds). split.
      { constructor; [|done]. simpl. by rewrite Hd1, Hd2. }
      rewrite comma_tail_cons. simpl. destruct Hs as [->| ->]; auto.
    + intros (ds & Hds & Hs)%(IH (String.length (String d2 s2)));
        [|simpl in Hn |- *; lia|done].
      exists (String d1 "" :: ds). split.
      { constructor; [|done]. simpl. by rewrite Hd1. }
      rewrite comma_tail_cons. simpl. destruct Hs as [->| ->]; auto.
Qed.

(** What the list pattern accepts: one or more 1–2 digit entries between
    commas, and a newline or nothing behind them. *)
Lemma list_matches_inv expression :
  list_matches expression = true →
  ∃ d ds, digits12 d ∧ Forall digits12 ds ∧
    (expression = join "," (d :: ds) ∨
     expression = join "," (d :: ds) +:+ String newline "").
Proof.
  unfold list_matches.
  destruct (re_digits expression) as [[d s]|] eqn:Hd; [|done].
  apply re_digits_inv in Hd as [Hd ->].
  intros (ds & Hds & Hs)%re_comma_tail_inv. exists d, ds.
  split_and!; [done..|]. rewrite join_cons, app_assoc_string.
  destruct Hs as [->| ->]; auto.
Qed.

Lemma int_digits12_newline d :
  digits12 d → int (d +:+ String newline "") = Ok (value d).
Proof.
  digits12_cases d; unfold int, value; by digit_simpl.
Qed.

Lemma split_on_digits12_newline d :
  digits12 d →
  split_on "," (d +:+ String newline "") = [d +:+ String newline ""].
Proof.
  digits12_cases d; by digit_simpl.
Qed.

Lemma ints_split_on_join_newline d ds :
  digits12 d → Forall digits12 ds →
  ints (split_on "," (join "," (d :: ds) +:+ String newline "")) =
  Ok (value <$> d :: ds).
Proof.
  intros Hd Hds. revert d Hd. induction Hds as [|d' ds Hd' _ IH]; intros d Hd.
  - simpl. rewrite split_on_digits12_newline by done. simpl.
    by rewrite int_digits12_newline.
  - change (join "," (d :: d' :: ds)) with (d +:+ "," +:+ join "," (d' :: ds)).
    rewrite !app_assoc_string.
    change (String.append ("," +:+ join "," (d' :: ds)) (String newline ""))
      with ("," +:+ (join "," (d' :: ds) +:+ String newline "")).
    rewrite split_on_digits12_comma by done.
    remember (split_on "," (join "," (d' :: ds) +:+ String newline "")) as rest
      eqn:Hrest.
    simpl. rewrite int_digits12 by done. simpl. subst rest. by rewrite IH.
Qed.

Lemma ints_list_matches expression :
  list_matches expression = true →
  ∃ d ds, digits12 d ∧ Forall digits12 ds ∧
    ints (split_on "," expression) = Ok (value <$> d :: ds).
Proof.
  intros (d & ds & Hd & Hds & [->| ->])%list_matches_inv; exists d, ds;
    split_and!; try done.
  - by rewrite split_on_join, ints_digits12 by auto.
  - by apply ints_split_on_join_newline.
Qed.

(** ** More on the field expander *)

(** The failures of the field expander, case by case. *)
Lemma expand_expression_Raise
    (expression : string) (options : list Z) (err : exn) :
  expand_expression expression options = Raise err →
  err = UnrecognizedFormat expression ∨
  err = InvalidInterval expression ∨
  (∃ values, err = NoValidValues values ∧ values ≠ [] ∧
     ∀ v, v ∈ values → v ∉ options) ∨
  (∃ range g1 g2, err = InvalidRange range ∧
     dash_matches range = Some (g1, g2) ∧ value g1 > value g2 ∧
     (range = expression ∨
      ∃ step, interval_matches expression = Some (range, step))).
Proof.
  rewrite expand_expression_eq.
  destruct (String.eqb expression "*"); [done|].
  destruct (dash_matches expression) as [[g1 g2]|] eqn:Hdash.
  { destruct (dash_matches_inv _ _ _ Hdash) as [H1 H2].
    rewrite !int_digits12 by done. simpl. case_decide; [|done].
    intros [= <-]. do 3 right. exists expression, g1, g2. auto. }
  destruct (list_matches expression) eqn:Hlist.
  { destruct (ints_list_matches _ Hlist) as (d & ds & _ & _ & ->). simpl.
    destruct (filter _ _) as [|x l] eqn:Hfilter; [|done].
    intros [= <-]. do 2 right. left. eexists. split_and!; [done..|].
    exact (proj1 (filter_nil_none _ _) Hfilter). }
  destruct (interval_matches expression) as [[base g2]|] eqn:Hinterval.
  { destruct (interval_matches_inv _ _ _ Hinterval) as [Hbase Hstep].
    rewrite int_digits12 by done. simpl. case_decide.
    { intros [= <-]. auto. }
    destruct Hbase as [->|(a & b & Ha & Hb & ->)].
    - rewrite expand_star. simpl. by rewrite step_filter_self.
    - rewrite expand_range by done. case_decide.
      + simpl. intros [= <-]. do 3 right. eexists _, a, b.
        split_and!; [done|by apply dash_matches_range|done|]. right. eauto.
      + simpl. by rewrite step_filter_self. }
  destruct (single_matches expression) eqn:Hsingle.
  { apply single_matches_list_matches in Hsingle. congruence. }
  intros [= <-]. auto.
Qed.

(** X1: the failures of the field expander.  An expansion that fails raises
    [UnrecognizedFormat] or [InvalidInterval] for the notation itself,
    [NoValidValues] for listed values none of which is in the domain, or
    [InvalidRange] for a range whose start exceeds its end, which is the
    notation or the base of the stepped notation.  It never raises the
    error of the single-value clause, an [IndexError] or the error of
    [int]. *)
Theorem expand_expression_raises
    (expression : string) (options : list Z) (err : exn) :
  expand_expression expression options = Raise err →
  err = UnrecognizedFormat expression ∨
  err = InvalidInterval expression ∨
  (∃ values, err = NoValidValues values ∧ values ≠ [] ∧
     ∀ v, v ∈ values → v ∉ options) ∨
  (∃ range g1 g2, err = InvalidRange range ∧
     dash_matches range = Some (g1, g2) ∧ value g1 > value g2 ∧
     (range = expression ∨
      ∃ step, interval_matches expression = Some (range, step))).
Proof. apply expand_expression_Raise. Qed.

Lemma expand_expression_raises_witness :
  InvalidRange "5-2" = UnrecognizedFormat "5-2/1" ∨
  InvalidRange "5-2" = InvalidInterval "5-2/1" ∨
  (∃ values, InvalidRange "5-2" = NoValidValues values ∧ values ≠ [] ∧
     ∀ v, v ∈ values → v ∉ range 1 6) ∨
  (∃ range g1 g2, InvalidRange "5-2" = InvalidRange range ∧
     dash_matches range = Some (g1, g2) ∧ value g1 > value g2 ∧
     (range = "5-2/1" ∨
      ∃ step, interval_matches "5-2/1" = Some (range, step))).
Proof.
  apply (expand_expression_raises "5-2/1" (range 1 6) (InvalidRange "5-2")).
  by vm_compute.
Defined.

(** X2: a text of three or more digits is no notation: it is rejected as
    [UnrecognizedFormat] whatever the domain, also when the number it
    denotes is a member of the domain. *)
Theorem expand_expression_three_digits (s : string) (D : list Z) :
  all_digits s → (3 ≤ String.length s)%nat →
  expand_expression s D = Raise (UnrecognizedFormat s).
Proof.
  intros Hs Hlen.
  destruct s as [|c1 [|c2 [|c3 s]]]; try (simpl in Hlen; lia).
  simpl in Hs. apply andb_True in Hs as [H1%Is_true_true Hs].
  apply andb_True in Hs as [H2%Is_true_true Hs].
  apply andb_True in Hs as [H3%Is_true_true _].
  assert (Ascii.eqb c3 newline = false) as Hnl.
  { clear -H3. destruct c3 as [[] [] [] [] [] [] [] []]; by vm_compute in H3 |- *. }
  rewrite expand_expression_eq.
  unfold dash_matches, list_matches, interval_matches, single_matches, re_base.
  digit_simpl. destruct s; simpl; by rewrite ?Hnl.
Qed.

Lemma expand_expression_three_digits_witness :
  expand_expression "100" (range 0 200) = Raise (UnrecognizedFormat "100").
Proof.
  apply (expand_expression_three_digits "100" (range 0 200)).
  - exact I.
  - simpl. lia.
Defined.

Lemma filter_all {A} (P : A → Prop) `{!∀ x, Decision (P x)} (l : list A) :
  (∀ x, x ∈ l → P x) → filter P l = l.
Proof.
  induction l as [|x l IH]; [done|]. intros Hall.
  rewrite filter_cons_True by (apply Hall; left).
  f_equal. apply IH. intros y Hy. apply Hall. by right.
Qed.

(** X3: the step 1 changes nothing: a stepped notation with step 1 expands,
    or fails, as its base does. *)
Theorem expand_expression_step_one (base step : string) (D : list Z) :
  stepped_base base → digits12 step → value step = 1 →
  expand_expression (base +:+ "/" +:+ step) D = expand_expression base D.
Proof.
  intros Hbase Hstep Hone. rewrite expand_stepped, Hone by done.
  case_decide; [lia|].
  destruct (expand_expression base D) as [new_options|]; [|done].
  simpl. f_equal. apply filter_all. intros x _. apply Z.mod_1_r.
Qed.

Lemma expand_expression_step_one_witness :
  expand_expression "2-8/01" (range 1 10) = expand_expression "2-8" (range 1 10).
Proof.
  apply (expand_expression_step_one "2-8" "01" (range 1 10)).
  - right. by exists "2", "8".
  - exact I.
  - reflexivity.
Defined.

(** X4: a stepped notation over a base that expands to a non-empty sequence
    keeps the first element of that sequence and selects among the others in
    their order; its expansion is never empty. *)
Theorem expand_expression_stepped_head
    (base step : string) (D : list Z) (c : Z) (C : list Z) :
  stepped_base base → digits12 step → 0 < value step →
  expand_expression base D = Ok (c :: C) →
  ∃ r, expand_expression (base +:+ "/" +:+ step) D = Ok (c :: r) ∧
       r `sublist_of` C.
Proof.
  intros Hbase Hstep Hpos Hexp. rewrite expand_stepped, Hexp by done.
  case_decide; [lia|]. simpl.
  rewrite filter_cons_True by (by rewrite Z.sub_diag, Z.mod_0_l by lia).
  eexists. split; [done|]. apply sublist_filter.
Qed.

Lemma expand_expression_stepped_head_witness :
  ∃ r, expand_expression "3-9/4" (range 1 10) = Ok (3 :: r) ∧
       r `sublist_of` [4; 5; 6; 7; 8; 9].
Proof.
  apply (expand_expression_stepped_head "3-9" "4" (range 1 10)).
  - right. by exists "3", "9".
  - exact I.
  - by vm_compute.
  - by vm_compute.
Defined.

(** ** Ranges and steps over an interval *)

Lemma closed_interval_empty lo hi : hi < lo → closed_interval lo hi = [].
Proof. intros. apply seqZ_nil. lia. Qed.

Lemma closed_interval_cons lo hi :
  lo ≤ hi → closed_interval lo hi = lo :: closed_interval (lo + 1) hi.
Proof.
  intros. unfold closed_interval. rewrite seqZ_cons by lia.
  f_equal. f_equal; lia.
Qed.

Lemma filter_closed_interval lo hi a b :
  filter (λ x, a ≤ x ≤ b) (closed_interval lo hi) =
  closed_interval (Z.max lo a) (Z.min hi b).
Proof.
  destruct (decide (Z.max lo a ≤ Z.min hi b)) as [Hle|Hgt].
  - unfold closed_interval.
    replace (hi - lo + 1) with
      ((Z.max lo a - lo) + ((Z.min hi b - Z.max lo a + 1) + (hi - Z.min hi b)))
      by lia.
    rewrite seqZ_app, seqZ_app by lia. rewrite !filter_app.
    rewrite (proj2 (filter_nil_none _ (seqZ lo _))), filter_all,
      (proj2 (filter_nil_none _ (seqZ (_ + _ + _) _))); simpl.
    + rewrite app_nil_r. f_equal; lia.
    + intros x Hx%elem_of_seqZ. lia.
    + intros x Hx%elem_of_seqZ. lia.
    + intros x Hx%elem_of_seqZ. lia.
  - rewrite (closed_interval_empty (Z.max _ _)) by lia.
    apply filter_nil_none. intros x Hx%elem_of_closed_interval. lia.
Qed.

(** X5: over a domain that is an interval lo..hi, a range "a-b" with
    a <= b is the interval cut to the range: max(lo,a)..min(hi,b). *)
Theorem expand_expression_range_interval (a b : string) (lo hi : Z) :
  digits12 a → digits12 b → value a ≤ value b →
  expand_expression (a +:+ "-" +:+ b) (closed_interval lo hi) =
  Ok (closed_interval (Z.max lo (value a)) (Z.min hi (value b))).
Proof.
  intros Ha Hb Hle. rewrite expand_range by done.
  case_decide; [lia|]. by rewrite filter_closed_interval.
Qed.

Lemma expand_expression_range_interval_witness :
  expand_expression "20-30" (closed_interval 0 23) = Ok (closed_interval 20 23).
Proof.
  apply (expand_expression_range_interval "20" "30" 0 23); by vm_compute.
Defined.

Lemma StronglySorted_closed_interval lo hi :
  StronglySorted Z.lt (closed_interval lo hi).
Proof.
  remember (Z.to_nat (hi - lo + 1)) as n eqn:Hn. revert lo Hn.
  induction n as [|n IH]; intros lo Hn.
  - rewrite closed_interval_empty by lia. constructor.
  - rewrite closed_interval_cons by lia. constructor.
    + apply IH. lia.
    + apply Forall_forall. intros x Hx%elem_of_closed_interval. lia.
Qed.

Lemma StronglySorted_filter {A} (R : relation A) (P : A → Prop)
    `{!∀ x, Decision (P x)} (l : list A) :
  StronglySorted R l → StronglySorted R (filter P l).
Proof.
  induction 1 as [|x l _ IH Hx]; [constructor|].
  rewrite filter_cons. case_decide; [|done]. constructor; [done|].
  apply Forall_forall. intros y [_ Hy]%list_elem_of_filter.
  by eapply Forall_forall in Hx.
Qed.

(** Two ascending sequences with the same members are the same sequence. *)
Lemma ascending_ext (l1 l2 : list Z) :
  StronglySorted Z.lt l1 → StronglySorted Z.lt l2 → NoDup l1 → NoDup l2 →
  (∀ x, x ∈ l1 ↔ x ∈ l2) → l1 = l2.
Proof.
  intros Hs1 Hs2 Hn1 Hn2 Hmem.
  apply (StronglySorted_unique_strong Z.lt); [intros; lia|done..|].
  by apply NoDup_Permutation.
Qed.

Lemma StronglySorted_progression lo hi n :
  0 < n → StronglySorted Z.lt (progression lo hi n) ∧ NoDup (progression lo hi n).
Proof.
  intros Hn. unfold progression. split.
  - apply (StronglySorted_fmap _ Z.lt Z.lt).
    + intros x y Hxy. nia.
    + replace (seqZ 0 ((hi - lo) `div` n + 1))
        with (closed_interval 0 ((hi - lo) `div` n))
        by (unfold closed_interval; f_equal; lia).
      apply StronglySorted_closed_interval.
  - apply NoDup_fmap_2; [|apply NoDup_seqZ]. intros x y Hxy. nia.
Qed.

Lemma elem_of_progression lo hi n x :
  0 < n →
  x ∈ progression lo hi n ↔ lo ≤ x ≤ hi ∧ (x - lo) `mod` n = 0.
Proof.
  intros Hn. unfold progression. rewrite list_elem_of_fmap.
  setoid_rewrite elem_of_seqZ. split.
  - intros (k & -> & Hk).
    assert (k ≤ (hi - lo) `div` n) as Hle by lia.
    pose proof (Z.mul_div_le (hi - lo) n Hn).
    split; [nia|].
    replace (lo + n * k - lo) with (k * n) by lia. apply Z.mod_mul. lia.
  - intros [Hx Hmod]. exists ((x - lo) `div` n).
    pose proof (Z.div_mod (x - lo) n ltac:(lia)) as Hdiv.
    rewrite Hmod in Hdiv. split; [lia|].
    split; [apply Z.div_pos; lia|].
    assert ((x - lo) `div` n ≤ (hi - lo) `div` n); [|lia].
    apply Z.div_le_mono; lia.
Qed.

Lemma head_closed_interval lo hi :
  lo ≤ hi → head (closed_interval lo hi) = Some lo.
Proof. intros. by rewrite closed_interval_cons. Qed.

Lemma filter_step_closed_interval lo hi n :
  0 < n →
  filter (λ x, (x - default 0 (head (closed_interval lo hi))) `mod` n = 0)
    (closed_interval lo hi) = progression lo hi n.
Proof.
  intros Hn. destruct (decide (lo ≤ hi)) as [Hle|Hgt].
  - rewrite head_closed_interval by done. simpl.
    destruct (StronglySorted_progression lo hi n Hn) as [Hs Hnd].
    apply ascending_ext; [|done| |done|].
    + apply StronglySorted_filter, StronglySorted_closed_interval.
    + apply NoDup_filter, NoDup_seqZ.
    + intros x. rewrite list_elem_of_filter, elem_of_closed_interval,
        elem_of_progression by done. tauto.
  - rewrite closed_interval_empty by lia. simpl. symmetry.
    unfold progression. rewrite seqZ_nil; [done|].
    assert ((hi - lo) `div` n < 0); [|lia]. apply Z.div_lt_upper_bound; lia.
Qed.

(** X6: over a domain that is an interval lo..hi, a stepped notation with
    step n >= 1 is an arithmetic progression of difference n: "*/n" starts
    at lo and ends by hi, "a-b/n" with a <= b starts at max(lo,a) and ends by
    min(hi,b). *)
Theorem expand_expression_stepped_interval (step : string) (lo hi : Z) :
  digits12 step → 0 < value step →
  expand_expression ("*" +:+ "/" +:+ step) (closed_interval lo hi) =
    Ok (progression lo hi (value step)) ∧
  ∀ a b, digits12 a → digits12 b → value a ≤ value b →
    expand_expression ((a +:+ "-" +:+ b) +:+ "/" +:+ step)
      (closed_interval lo hi) =
    Ok (progression (Z.max lo (value a)) (Z.min hi (value b)) (value step)).
Proof.
  intros Hstep Hpos. split.
  - rewrite expand_stepped by (done || by left).
    case_decide; [lia|]. rewrite expand_star. simpl.
    by rewrite filter_step_closed_interval.
  - intros a b Ha Hb Hle.
    rewrite expand_stepped by (done || (right; by exists a, b)).
    case_decide; [lia|]. rewrite expand_range by done.
    case_decide; [lia|]. simpl.
    by rewrite filter_closed_interval, filter_step_closed_interval.
Qed.

Lemma expand_expression_stepped_interval_witness :
  expand_expression "*/15" (closed_interval 0 59) = Ok [0; 15; 30; 45] ∧
  expand_expression "10-40/7" (closed_interval 1 31) = Ok [10; 17; 24; 31].
Proof.
  split.
  - refine (proj1 (expand_expression_stepped_interval "15" 0 59 I _)).
    by vm_compute.
  - refine (proj2 (expand_expression_stepped_interval "7" 1 31 I _)
              "10" "40" I I _); by vm_compute.
Defined.

(** ** A newline behind the notation *)







(** ** More on the schedule model *)

Lemma expand_expression_elem_of expression options r x :
  expand_expression expression options = Ok r → x ∈ r → x ∈ options.
Proof.
  intros [[_ Hsub]|(_ & _ & values & _ & ->)]%expand_expression_shape Hx.
  - by eapply sublist_subseteq.
  - by apply list_elem_of_filter in Hx as [? _].
Qed.

Lemma elem_of_range lo hi x : x ∈ range lo hi ↔ lo ≤ x < hi.
Proof. unfold range. rewrite elem_of_seqZ. lia. Qed.

(** X8: every integer of an expanded schedule lies in the bounds of its
    field: minutes in 0..59, hours in 0..23, days of the month in 1..31,
    months in 1..12, days of the week in 1..7. *)
Theorem CronExpression_init_in_bounds
    (expression : string) (self : CronExpression) :
  CronExpression_init expression = Ok self →
  (∀ x, x ∈ _minute self → 0 ≤ x ≤ 59) ∧
  (∀ x, x ∈ _hour self → 0 ≤ x ≤ 23) ∧
  (∀ x, x ∈ _day_of_month self → 1 ≤ x ≤ 31) ∧
  (∀ x, x ∈ _month self → 1 ≤ x ≤ 12) ∧
  (∀ x, x ∈ _day_of_week self → 1 ≤ x ≤ 7).
Proof.
  unfold CronExpression_init.
  destruct (AbstractCronExpression_init expression) as [raw|]; [|done]. simpl.
  destruct (expand_expression (raw_minute raw) _) as [m|] eqn:Hm; [|done].
  destruct (expand_expression (raw_hour raw) _) as [h|] eqn:Hh; [|done].
  destruct (expand_expression (raw_day_of_month raw) _) as [d|] eqn:Hd; [|done].
  destruct (expand_expression (raw_month raw) _) as [mo|] eqn:Hmo; [|done].
  destruct (expand_expression (raw_day_of_week raw) _) as [w|] eqn:Hw; [|done].
  simpl. intros [= <-]. simpl.
  split_and!; intros x Hx;
    [ apply (expand_expression_elem_of _ _ _ _ Hm) in Hx
    | apply (expand_expression_elem_of _ _ _ _ Hh) in Hx
    | apply (expand_expression_elem_of _ _ _ _ Hd) in Hx
    | apply (expand_expression_elem_of _ _ _ _ Hmo) in Hx
    | apply (expand_expression_elem_of _ _ _ _ Hw) in Hx ];
    apply elem_of_range in Hx; lia.
Qed.

Lemma CronExpression_init_in_bounds_witness : 0 ≤ 45 ≤ 59 ∧ 1 ≤ 31 ≤ 31.
Proof.
  destruct (CronExpression_init_in_bounds "*/15 20-30 31,32 * 7 ls"
    {| super := {| raw_minute := "*/15"; raw_hour := "20-30";
                   raw_day_of_month := "31,32"; raw_month := "*";
                   raw_day_of_week := "7"; command := "ls" |};
       _minute := [0; 15; 30; 45]; _hour := [20; 21; 22; 23];
       _day_of_month := [31];
       _month := [1; 2; 3; 4; 5; 6; 7; 8; 9; 10; 11; 12];
       _day_of_week := [7] |}) as (Hminute & _ & Hday & _);
    [by vm_compute|].
  split.
  - apply Hminute. simpl. do 3 right. left.
  - apply Hday. simpl. left.
Defined.

(** X9: a schedule that is accepted holds the tokens of its expression: the
    five raw fields are tokens (not empty, no whitespace), the command is
    not empty, and the fields followed by the tokens of the command are the
    tokens of the expression. *)
Theorem AbstractCronExpression_init_tokens
    (expression : string) (self : AbstractCronExpression) :
  AbstractCronExpression_init expression = Ok self →
  Forall token [raw_minute self; raw_hour self; raw_day_of_month self;
                raw_month self; raw_day_of_week self] ∧
  command self ≠ "" ∧
  split expression =
    raw_minute self :: raw_hour self :: raw_day_of_month self ::
    raw_month self :: raw_day_of_week self :: split (command self).
Proof.
  rewrite AbstractCronExpression_init_parts.
  pose proof (split_tokens expression) as Htokens.
  destruct (split expression) as [|p0 [|p1 [|p2 [|p3 [|p4 [|p5 rest]]]]]];
    try done.
  intros [= <-]. simpl.
  apply Forall_cons_1 in Htokens as [H0 Htokens].
  apply Forall_cons_1 in Htokens as [H1 Htokens].
  apply Forall_cons_1 in Htokens as [H2 Htokens].
  apply Forall_cons_1 in Htokens as [H3 Htokens].
  apply Forall_cons_1 in Htokens as [H4 Htokens].
  split_and!.
  - repeat (apply Forall_cons_2; [done|]). apply Forall_nil_2.
  - apply Forall_cons_1 in Htokens as [[Hne _] _]. clear -Hne.
    destruct rest; [done|]. by destruct p5.
  - do 5 f_equal. symmetry. by apply (split_join (p5 :: rest)).
Qed.

Lemma AbstractCronExpression_init_tokens_witness :
  Forall token ["0"; "0"; "1"; "1"; "1"] ∧
  "/usr/bin/command -a -b" ≠ "" ∧
  split "0 0 1 1 1   /usr/bin/command -a  -b" =
    "0" :: "0" :: "1" :: "1" :: "1" :: split "/usr/bin/command -a -b".
Proof.
  apply (AbstractCronExpression_init_tokens
           "0 0 1 1 1   /usr/bin/command -a  -b"
           {| raw_minute := "0"; raw_hour := "0"; raw_day_of_month := "1";
              raw_month := "1"; raw_day_of_week := "1";
              command := "/usr/bin/command -a -b" |}).
  by vm_compute.
Defined.

Lemma AbstractCronExpression_init_split e1 e2 :
  split e1 = split e2 →
  AbstractCronExpression_init e1 = AbstractCronExpression_init e2.
Proof. intros Hsplit. by rewrite !AbstractCronExpression_init_parts, Hsplit. Qed.

(** X10: the whitespace of the expression does not matter: an expression
    laid out with any whitespace before, between and behind its tokens
    builds the schedules that its tokens joined by single spaces build. *)
Theorem CronExpression_init_layout
    (lead first : string) (others : list (string * string)) (trail : string) :
  all_space lead → all_space trail → token first →
  Forall (λ st, all_space st.1 ∧ st.1 ≠ "" ∧ token st.2) others →
  AbstractCronExpression_init (layout lead first others trail) =
    AbstractCronExpression_init (join " " (first :: others.*2)) ∧
  CronExpression_init (layout lead first others trail) =
    CronExpression_init (join " " (first :: others.*2)).
Proof.
  intros Hlead Htrail Hfirst Hothers.
  assert (split (layout lead first others trail) =
          split (join " " (first :: others.*2))) as Hsplit.
  { rewrite split_layout, split_join; [done| |done..].
    constructor; [done|]. apply Forall_fmap.
    eapply Forall_impl; [exact Hothers|]. by intros [w t] (_ & _ & Ht). }
  split.
  - by apply AbstractCronExpression_init_split.
  - by apply CronExpression_init_split.
Qed.

Lemma CronExpression_init_layout_witness :
  AbstractCronExpression_init "  */5   0 1 1 1 ls "  =
    AbstractCronExpression_init "*/5 0 1 1 1 ls" ∧
  CronExpression_init "  */5   0 1 1 1 ls " =
    CronExpression_init "*/5 0 1 1 1 ls".
Proof.
  apply (CronExpression_init_layout "  " "*/5"
    [("   ", "0"); (" ", "1"); (" ", "1"); (" ", "1"); (" ", "ls")] " ");
    try done.
  repeat constructor; done.
Defined.

(** ** The table *)





Lemma str_rstrip_last s t c :
  str_rstrip s = t +:+ String c "" → isspace c = false.
Proof.
  revert t. induction s as [|a s IH]; intros t; simpl.
  - by destruct t.
  - destruct (str_rstrip s) as [|b r] eqn:Hr.
    + destruct (isspace a) eqn:Ha; [by destruct t|].
      destruct t as [|? [|? ?]]; simpl; intros [= -> ]; done.
    + destruct t as [|a' t]; simpl.
      * intros [= _ ?]; done.
      * intros [= _ Hrt]. by apply (IH t).
Qed.

Lemma str_rstrip_cons a s :
  str_rstrip (String a s) =
  match str_rstrip s with
  | "" => if isspace a then "" else String a ""
  | r => String a r
  end.
Proof. done. Qed.

Lemma str_rstrip_idemp s : str_rstrip (str_rstrip s) = str_rstrip s.
Proof.
  induction s as [|a s IH]; [done|]. rewrite str_rstrip_cons.
  destruct (str_rstrip s) as [|b r] eqn:Hr.
  - destruct (isspace a) eqn:Ha; [done|]. simpl. by rewrite Ha.
  - by rewrite str_rstrip_cons, IH.
Qed.

(** X12: a rendered table never ends in whitespace, whatever its rows: in
    particular it does not end in the newline of its last row, and stripping
    it again changes nothing. *)
Theorem render_no_trailing_whitespace (self : TableOutput) (s : string) (c : ascii) :
  render self = s +:+ String c "" →
  isspace c = false ∧ str_rstrip (render self) = render self.
Proof.
  intros Hrender. split.
  - by apply (str_rstrip_last _ _ _ Hrender).
  - apply str_rstrip_idemp.
Qed.

Lemma render_no_trailing_whitespace_witness :
  isspace "b" = false ∧
  str_rstrip (render (TableOutput_init [("a", Str "x"); ("b", Str "")])) =
    render (TableOutput_init [("a", Str "x"); ("b", Str "")]).
Proof.
  apply (render_no_trailing_whitespace
           (TableOutput_init [("a", Str "x"); ("b", Str "")])
           ("a              x" +:+ String newline "") "b").
  by vm_compute.
Defined.

Lemma str_rstrip_all_space w : all_space w → str_rstrip w = "".
Proof.
  induction w as [|c w IH]; [done|]. simpl.
  intros [Hc Hw]%andb_True. rewrite IH by done.
  by apply Is_true_true in Hc as ->.
Qed.

Lemma str_rstrip_token t w :
  token t → all_space w → str_rstrip (t +:+ w) = t.
Proof.
  intros [Hne Ht] Hw. induction t as [|c t IH]; [done|].
  simpl in Ht. apply andb_True in Ht as [Hc Ht].
  apply negb_True, Is_true_false in Hc.
  change (String c t +:+ w) with (String c (t +:+ w)).
  rewrite str_rstrip_cons. destruct t as [|c' t].
  - simpl. rewrite str_rstrip_all_space by done. by rewrite Hc.
  - by rewrite IH.
Qed.

Lemma str_rstrip_app_token a t w :
  token t → all_space w → str_rstrip (a +:+ t +:+ w) = a +:+ t.
Proof.
  intros Ht Hw. induction a as [|c a IH].
  - simpl. by apply str_rstrip_token.
  - change (String c a +:+ t +:+ w) with (String c (a +:+ t +:+ w)).
    rewrite str_rstrip_cons, IH.
    destruct Ht as [Hne _]. destruct a; [by destruct t | done].
Qed.

(** Stripping removes what follows the last token, and no more. *)
Lemma str_rstrip_join_tokens a ts w :
  Forall token ts → ts ≠ [] → all_space w →
  str_rstrip (a +:+ join " " ts +:+ w) = a +:+ join " " ts.
Proof.
  intros Hts Hne Hw. revert a.
  induction Hts as [|t ts Ht Hts IH]; intros a; [done|].
  destruct ts as [|t' ts].
  - by apply str_rstrip_app_token.
  - change (join " " (t :: t' :: ts)) with (t +:+ " " +:+ join " " (t' :: ts)).
    rewrite <-!app_assoc_string.
    rewrite (app_assoc_string _ (join _ _) w), IH by done.
    by rewrite !app_assoc_string.
Qed.

Lemma command_tokens expression self :
  AbstractCronExpression_init expression = Ok self →
  ∃ ts, Forall token ts ∧ ts ≠ [] ∧ command self = join " " ts.
Proof.
  rewrite AbstractCronExpression_init_parts.
  pose proof (split_tokens expression) as Htokens.
  destruct (split expression) as [|p0 [|p1 [|p2 [|p3 [|p4 [|p5 rest]]]]]];
    try done.
  intros [= <-]. exists (p5 :: rest). split_and!; [|done..].
  by do 5 apply Forall_cons_1 in Htokens as [_ Htokens].
Qed.

(** [RawCronExpression(e).expand()] and [CronExpression(e)] are the same
    construction, for every expression. *)
Lemma RawCronExpression_expand_init expression :
  (raw ← RawCronExpression_init expression; RawCronExpression_expand raw) =
  CronExpression_init expression.
Proof.
  unfold RawCronExpression_init. rewrite AbstractCronExpression_init_parts.
  pose proof (split_tokens expression) as Htokens.
  destruct (split expression) as [|p0 [|p1 [|p2 [|p3 [|p4 [|p5 rest]]]]]] eqn:Hparts;
    try (unfold CronExpression_init;
         by rewrite AbstractCronExpression_init_parts, Hparts).
  cbn [mbind result_mbind result_bind].
  unfold RawCronExpression_expand. cbn [raw_minute raw_hour raw_day_of_month
    raw_month raw_day_of_week command].
  rewrite join_snoc_command by done.
  apply CronExpression_init_split.
  by rewrite split_join, Hparts by done.
Qed.

Lemma CronExpression_init_super expression self :
  CronExpression_init expression = Ok self →
  AbstractCronExpression_init expression = Ok (super self).
Proof.
  unfold CronExpression_init.
  destruct (AbstractCronExpression_init expression) as [raw|]; [|done]. simpl.
  destruct (expand_expression (raw_minute raw) _); [|done].
  destruct (expand_expression (raw_hour raw) _); [|done].
  destruct (expand_expression (raw_day_of_month raw) _); [|done].
  destruct (expand_expression (raw_month raw) _); [|done].
  destruct (expand_expression (raw_day_of_week raw) _); [|done].
  simpl. by intros [= <-].
Qed.

Lemma expand_cron_exp_eq (cron_exp : string) :
  expand_cron_exp cron_exp =
  self ← CronExpression_init cron_exp;
  Ok ("minute         " +:+ join " " (str_int <$> _minute self) +:+
      String newline "" +:+
      "hour           " +:+ join " " (str_int <$> _hour self) +:+
      String newline "" +:+
      "day of month   " +:+ join " " (str_int <$> _day_of_month self) +:+
      String newline "" +:+
      "month          " +:+ join " " (str_int <$> _month self) +:+
      String newline "" +:+
      "day of week    " +:+ join " " (str_int <$> _day_of_week self) +:+
      String newline "" +:+
      "command        " +:+ command (super self)).
Proof.
  unfold expand_cron_exp.
  pose proof (RawCronExpression_expand_init cron_exp) as Hexpand.
  destruct (RawCronExpression_init cron_exp) as [raw|err]; simpl in *;
    [|by rewrite <-Hexpand].
  rewrite Hexpand. clear Hexpand raw.
  destruct (CronExpression_init cron_exp) as [self|err] eqn:Hinit; [|done].
  simpl. f_equal.
  assert (∃ ts, Forall token ts ∧ ts ≠ [] ∧ command (super self) = join " " ts)
    as (ts & Hts & Hne & Hcommand).
  { eapply command_tokens, CronExpression_init_super, Hinit. }
  trans (str_rstrip
    (("minute         " +:+ join " " (str_int <$> _minute self) +:+
      String newline "" +:+
      "hour           " +:+ join " " (str_int <$> _hour self) +:+
      String newline "" +:+
      "day of month   " +:+ join " " (str_int <$> _day_of_month self) +:+
      String newline "" +:+
      "month          " +:+ join " " (str_int <$> _month self) +:+
      String newline "" +:+
      "day of week    " +:+ join " " (str_int <$> _day_of_week self) +:+
      String newline "" +:+
      "command        ") +:+ join " " ts +:+ String newline "")).
  - f_equal. unfold render, render_row, TableOutput_init, to_table_format.
    rewrite <-Hcommand.
    repeat (progress (simpl; rewrite ?app_assoc_string)). done.
  - rewrite str_rstrip_join_tokens by done. rewrite <-Hcommand.
    repeat (progress (simpl; rewrite ?app_assoc_string)). done.
Qed.

(** X13: what [expand_cron_exp] returns.  It fails as the construction of
    the expanded schedule fails; otherwise it is six lines, each made of a
    label padded to 14 characters, a space and a value: the five fields as
    their integers between single spaces, and the command; no newline
    follows the last line. *)
Theorem expand_cron_exp_table (cron_exp : string) :
  expand_cron_exp cron_exp =
  self ← CronExpression_init cron_exp;
  Ok ("minute         " +:+ join " " (str_int <$> _minute self) +:+
      String newline "" +:+
      "hour           " +:+ join " " (str_int <$> _hour self) +:+
      String newline "" +:+
      "day of month   " +:+ join " " (str_int <$> _day_of_month self) +:+
      String newline "" +:+
      "month          " +:+ join " " (str_int <$> _month self) +:+
      String newline "" +:+
      "day of week    " +:+ join " " (str_int <$> _day_of_week self) +:+
      String newline "" +:+
      "command        " +:+ command (super self)).
Proof. apply expand_cron_exp_eq. Qed.

(** ** The decimal digits of an integer *)

Lemma isdigit_pretty_N_char d : isdigit (pretty_N_char d) = true.
Proof. unfold pretty_N_char. by repeat case_match. Qed.



Lemma pretty_N_go_app x s : pretty_N_go x s = pretty_N_go x "" +:+ s.
Proof.
  revert s. induction (N.lt_wf_0 x) as [x _ IH]; intros s.
  destruct (decide (x = 0)%N) as [->|Hx]; [done|].
  assert (x `div` 10 < x)%N as Hlt by (apply N.div_lt; lia).
  rewrite (pretty_N_go_step x s), (pretty_N_go_step x "") by lia.
  rewrite (IH _ Hlt (String _ s)), (IH _ Hlt (String _ "")).
  by rewrite app_assoc_string.
Qed.

Lemma all_digits_app a b : all_digits (a +:+ b) = all_digits a && all_digits b.
Proof.
  induction a as [|c a IH]; [done|]. simpl. by rewrite IH, andb_assoc.
Qed.

Lemma all_digits_pretty_N_go x : all_digits (pretty_N_go x "") = true.
Proof.
  induction (N.lt_wf_0 x) as [x _ IH].
  destruct (decide (x = 0)%N) as [->|Hx]; [done|].
  rewrite pretty_N_go_step, pretty_N_go_app by lia.
  rewrite all_digits_app, IH by (apply N.div_lt; lia).
  simpl. by rewrite isdigit_pretty_N_char.
Qed.










(** ** The lines of the table *)

Lemma no_char_app c a b : no_char c (a +:+ b) = no_char c a && no_char c b.
Proof. induction a as [|c' a IH]; [done|]. simpl. by rewrite IH, andb_assoc. Qed.

Lemma split_on_no_char sep a : no_char sep a = true → split_on sep a = [a].
Proof.
  induction a as [|c a IH]; [done|]. simpl.
  intros [Hc Ha]%andb_true_iff. apply negb_true_iff in Hc.
  by rewrite Hc, IH.
Qed.

Lemma split_on_app_sep sep a b :
  no_char sep a = true →
  split_on sep (a +:+ String sep b) = a :: split_on sep b.
Proof.
  induction a as [|c a IH]; simpl.
  - by rewrite Ascii.eqb_refl.
  - intros [Hc Ha]%andb_true_iff. apply negb_true_iff in Hc.
    by rewrite Hc, IH.
Qed.

Lemma all_digits_no_char c s :
  isdigit c = false → all_digits s = true → no_char c s = true.
Proof.
  intros Hc. induction s as [|c' s IH]; [done|]. simpl.
  intros [Hc' Hs]%andb_true_iff. rewrite IH by done.
  destruct (Ascii.eqb c' c) eqn:Heq; [|done].
  apply Ascii.eqb_eq in Heq as ->. congruence.
Qed.

Lemma no_char_str_int c x :
  isdigit c = false → Ascii.eqb "-" c = false → no_char c (str_int x) = true.
Proof.
  intros Hc Hdash.
  assert (∀ p, no_char c (pretty (N.pos p)) = true) as Hpos.
  { intros p. unfold pretty, pretty_N. rewrite decide_False by done.
    apply all_digits_no_char; [done|]. apply all_digits_pretty_N_go. }
  destruct x as [|p|p]; [by apply all_digits_no_char|apply Hpos|].
  unfold str_int, pretty, pretty_Z. rewrite no_char_app.
  apply andb_true_iff. split; [|apply Hpos].
  change (no_char c "-") with (negb (Ascii.eqb "-" c) && true).
  by rewrite Hdash.
Qed.

Lemma no_char_join c sep xs :
  no_char c sep = true → Forall (λ x, no_char c x = true) xs →
  no_char c (join sep xs) = true.
Proof.
  intros Hsep. induction 1 as [|x xs Hx Hxs IH]; [done|].
  destruct xs as [|x' xs]; [done|].
  change (join sep (x :: x' :: xs)) with (x +:+ sep +:+ join sep (x' :: xs)).
  by rewrite !no_char_app, Hx, Hsep, IH.
Qed.

Lemma no_space_no_char c t : isspace c = true → no_space t → no_char c t = true.
Proof.
  intros Hc. induction t as [|c' t IH]; [done|]. simpl.
  intros [Hc' Ht]%andb_True. rewrite IH by done.
  destruct (Ascii.eqb c' c) eqn:Heq; [|done].
  apply Ascii.eqb_eq in Heq as ->. by rewrite Hc in Hc'.
Qed.

Lemma no_char_newline_ints label xs :
  no_char newline label = true →
  no_char newline (label +:+ join " " (str_int <$> xs)) = true.
Proof.
  intros Hlabel. rewrite no_char_app, Hlabel. simpl.
  apply no_char_join; [done|]. apply Forall_fmap, Forall_true.
  intros x. by apply no_char_str_int.
Qed.

(** Lines without newlines, joined by newlines, are what cutting at the
    newlines gives back. *)
Lemma split_on_join_lines lines :
  lines ≠ [] → Forall (λ l, no_char newline l = true) lines →
  split_on newline (join (String newline "") lines) = lines.
Proof.
  intros Hne Hlines. induction Hlines as [|l lines Hl Hlines IH]; [done|].
  destruct lines as [|l' lines].
  - by apply split_on_no_char.
  - change (join (String newline "") (l :: l' :: lines))
      with (l +:+ String newline (join (String newline "") (l' :: lines))).
    rewrite split_on_app_sep by done. f_equal. by apply IH.
Qed.

(** X15: the table of an expanded schedule has exactly six lines, whatever
    the fields and the command: cut at its newlines it is the line of the
    minutes, of the hours, of the days of the month, of the months, of the
    days of the week and of the command. *)
Theorem expand_cron_exp_lines (cron_exp out : string) :
  expand_cron_exp cron_exp = Ok out →
  ∃ self, CronExpression_init cron_exp = Ok self ∧
          split_on newline out = table_lines self.
Proof.
  rewrite expand_cron_exp_eq.
  destruct (CronExpression_init cron_exp) as [self|] eqn:Hinit; [|done].
  simpl. intros [= <-]. exists self. split; [done|].
  destruct (command_tokens _ _ (CronExpression_init_super _ _ Hinit))
    as (ts & Hts & _ & Hcommand).
  rewrite <-(split_on_join_lines (table_lines self)).
  - reflexivity.
  - done.
  - unfold table_lines.
    repeat (apply Forall_cons_2; [by apply no_char_newline_ints|]).
    apply Forall_cons_2; [|apply Forall_nil_2].
    rewrite no_char_app, Hcommand. apply andb_true_iff. split; [done|].
    apply no_char_join; [done|].
    eapply Forall_impl; [exact Hts|]. intros t [_ Ht].
    by apply no_space_no_char.
Qed.

Lemma expand_cron_exp_lines_witness :
  ∃ self, CronExpression_init "*/15 0 1,15 * 1-5 /usr/bin/find -v" = Ok self ∧
    split_on newline
      ("minute         0 15 30 45" +:+ String newline "" +:+
       "hour           0" +:+ String newline "" +:+
       "day of month   1 15" +:+ String newline "" +:+
       "month          1 2 3 4 5 6 7 8 9 10 11 12" +:+ String newline "" +:+
       "day of week    1 2 3 4 5" +:+ String newline "" +:+
       "command        /usr/bin/find -v") = table_lines self.
Proof.
  apply (expand_cron_exp_lines "*/15 0 1,15 * 1-5 /usr/bin/find -v").
  by vm_compute.
Defined.

(** ** The command line *)

Lemma expand_expression_no_InvalidLiteral expression options literal :
  expand_expression expression options ≠ Raise (InvalidLiteral literal).
Proof.
  intros [?|[?|[(? & ? & _)|(? & ? & ? & ? & _)]]]%expand_expression_Raise;
    done.
Qed.

Lemma CronExpression_init_no_InvalidLiteral expression literal :
  CronExpression_init expression ≠ Raise (InvalidLiteral literal).
Proof.
  unfold CronExpression_init. rewrite AbstractCronExpression_init_parts.
  destruct (split expression) as [|p0 [|p1 [|p2 [|p3 [|p4 [|p5 rest]]]]]];
    try done.
  simpl.
  repeat match goal with
    | |- context [expand_expression ?e ?D ≫= _] =>
        let H := fresh in
        destruct (expand_expression e D) eqn:H; simpl;
        [|intros [= ->]; by apply expand_expression_no_InvalidLiteral in H]
    end.
  done.
Qed.

Section main_properties.
Variable repr : string → string.

(** X16: what [main] does.  With an argument count other than one it
    prints the usage line and exits with status 1.  With one argument it
    prints the six lines of the table and returns when the expanded
    schedule of the argument can be built, and otherwise prints "Error: "
    and the message of the failure on one line and exits with status 1;
    the name of the program plays no part. *)
Theorem main_outcome (argv : list string) :
  (length argv ≠ 2%nat →
     main repr argv =
       {| stdout := print "Usage: python3 app.py <cron_expression>";
          exit_status := Some 1 |}) ∧
  (∀ prog cron_expression, argv = [prog; cron_expression] →
     main repr argv =
     match CronExpression_init cron_expression with
     | Ok self =>
         {| stdout := print (join (String newline "") (table_lines self));
            exit_status := None |}
     | Raise e =>
         {| stdout := print ("Error: " +:+ str_exn repr e);
            exit_status := Some 1 |}
     end).
Proof.
  split.
  - intros Hlen. unfold main. by rewrite decide_True.
  - intros prog cron_expression ->. unfold main.
    rewrite decide_False by (simpl; lia).
    cbn [index lookup list_lookup mbind result_mbind result_bind].
    rewrite expand_cron_exp_eq.
    by destruct (CronExpression_init cron_expression).
Qed.

(** X17: the message of a failure of [int] is never printed: whatever
    [repr] is, [main] does the same.  The lines that [main] prints come
    from the program's own messages and from the table. *)
Theorem main_repr_irrelevant (repr' : string → string) (argv : list string) :
  main repr argv = main repr' argv.
Proof.
  unfold main. case_decide; [done|].
  destruct argv as [|prog [|cron_expression [|? ?]]]; try done.
  cbn [index lookup list_lookup mbind result_mbind result_bind].
  rewrite expand_cron_exp_eq.
  destruct (CronExpression_init cron_expression) as [self|e] eqn:Hinit;
    [done|].
  simpl. destruct e; try done.
  by apply CronExpression_init_no_InvalidLiteral in Hinit.
Qed.
End main_properties.

Lemma main_outcome_witness :
  main (λ s, s) ["app.py"] =
    {| stdout := print "Usage: python3 app.py <cron_expression>";
       exit_status := Some 1 |} ∧
  main (λ s, s) ["app.py"; "0 0 1 1"] =
    {| stdout :=
         print "Error: Invalid cron expression format. Expected at least 6 parts.";
       exit_status := Some 1 |} ∧
  main (λ s, s) ["app.py"; "0 0 31,32 1 1 ls"] =
    {| stdout :=
         print ("minute         0" +:+ String newline "" +:+
                "hour           0" +:+ String newline "" +:+
                "day of month   31" +:+ String newline "" +:+
                "month          1" +:+ String newline "" +:+
                "day of week    1" +:+ String newline "" +:+
                "command        ls");
       exit_status := None |}.
Proof.
  split_and!.
  - apply (main_outcome (λ s, s) ["app.py"]). simpl. lia.
  - exact (proj2 (main_outcome (λ s, s) ["app.py"; "0 0 1 1"])
             "app.py" "0 0 1 1" eq_refl).
  - exact (proj2 (main_outcome (λ s, s) ["app.py"; "0 0 31,32 1 1 ls"])
             "app.py" "0 0 31,32 1 1 ls" eq_refl).
Defined.
